(** * Pulse Planner: the task store of the to-do screen

    A shallow embedding of the task-management logic of the [TaskApp]
    component (the handlers [addTask], [updateTask], [toggleComplete],
    [deleteTask], the projection [filteredTasks] and the load/save
    effects), followed by the properties of its specification.

    Conventions of the embedding:
    - a JavaScript string is the list of its UTF-16 code units;
    - a [Date] is its time value, an integer number of milliseconds since
      the epoch (the component only ever holds valid dates: they come from
      the date picker or from a date it saved itself);
    - an optional field ([reminderDate?], [notificationId?]) is an [option];
    - the platform services (clock, notification scheduler) are a record of
      answers, one per handler call; what a handler asks of them and what it
      prints or shows is recorded in a trace of events;
    - React state is a record; a handler reads the values of the render it
      was created in and its setter calls produce the next state. *)

From Stdlib Require Import ZArith NArith List String Ascii Lia Bool.
From Stdlib Require Import Sorting.Sorted Sorting.Permutation.
From stdpp Require Import base gmap list.

Import ListNotations.
Open Scope Z_scope.

(** ** Strings *)

Module JsString.

(** A string value: UTF-16 code units. *)
Definition t := list N.

Definition of_string (s : string) : t :=
  List.map N_of_ascii (list_ascii_of_string s).

(** The code unit of an ASCII character. *)
Definition chr (c : ascii) : N := N_of_ascii c.

(** WhiteSpace and LineTerminator code points of ECMAScript, the ones
    [String.prototype.trim] strips. All of them are in the BMP. *)
Definition isWhiteSpace (c : N) : bool :=
  ((c =? 0x0009) || (c =? 0x000A) || (c =? 0x000B) || (c =? 0x000C) ||
   (c =? 0x000D) || (c =? 0x0020) || (c =? 0x00A0) || (c =? 0x1680) ||
   ((0x2000 <=? c) && (c <=? 0x200A)) ||
   (c =? 0x2028) || (c =? 0x2029) || (c =? 0x202F) || (c =? 0x205F) ||
   (c =? 0x3000) || (c =? 0xFEFF))%N.

Fixpoint trimStart (s : t) : t :=
  match s with
  | c :: s' => if isWhiteSpace c then trimStart s' else s
  | [] => []
  end.

Definition trimEnd (s : t) : t := rev (trimStart (rev s)).

Definition trim (s : t) : t := trimEnd (trimStart s).

Fixpoint eqb (a b : t) : bool :=
  match a, b with
  | [], [] => true
  | x :: a', y :: b' => (x =? y)%N && eqb a' b'
  | _, _ => false
  end.

(** ToBoolean on a string: only the empty string is falsy. *)
Definition truthy (s : t) : bool :=
  match s with [] => false | _ :: _ => true end.

End JsString.

Abbreviation jsstring := JsString.t.
Abbreviation trim := JsString.trim.
Abbreviation js := JsString.of_string.
Abbreviation chr := JsString.chr.
Arguments JsString.of_string s%_string.
Arguments JsString.chr c%_char.

(** ** The data model *)

Inductive Priority := Low | Medium | High.

Record Date := mkDate { getTime : Z }.

Record Task := mkTask {
  id : Z;
  text : jsstring;
  completed : bool;
  priority : Priority;
  category : jsstring;
  reminderDate : option Date;
  notificationId : option jsstring
}.

Inductive Filter := All | Completed | Pending.
Inductive SortBy := SortNone | SortPriority | SortDate.

(** The [useState] cells of [TaskApp] that the handlers read or write. *)
Record AppState := mkState {
  s_task : jsstring;
  s_tasks : list Task;
  s_priority : Priority;
  s_category : jsstring;
  s_reminderDate : option Date;
  s_filter : Filter;
  s_sortBy : SortBy;
  s_editingTask : option Task
}.

Definition setTask v (s : AppState) :=
  mkState v (s_tasks s) (s_priority s) (s_category s) (s_reminderDate s)
          (s_filter s) (s_sortBy s) (s_editingTask s).
Definition setTasksTo v (s : AppState) :=
  mkState (s_task s) v (s_priority s) (s_category s) (s_reminderDate s)
          (s_filter s) (s_sortBy s) (s_editingTask s).
Definition setPriority v (s : AppState) :=
  mkState (s_task s) (s_tasks s) v (s_category s) (s_reminderDate s)
          (s_filter s) (s_sortBy s) (s_editingTask s).
Definition setCategory v (s : AppState) :=
  mkState (s_task s) (s_tasks s) (s_priority s) v (s_reminderDate s)
          (s_filter s) (s_sortBy s) (s_editingTask s).
Definition setReminderDate v (s : AppState) :=
  mkState (s_task s) (s_tasks s) (s_priority s) (s_category s) v
          (s_filter s) (s_sortBy s) (s_editingTask s).
Definition setEditingTask v (s : AppState) :=
  mkState (s_task s) (s_tasks s) (s_priority s) (s_category s)
          (s_reminderDate s) (s_filter s) (s_sortBy s) v.

(** ** Platform services and observable events *)

(** The value a rejected promise carries. *)
Definition Error := string.

Inductive Outcome (A : Type) :=
| Resolved (a : A)
| Rejected (e : Error).
Arguments Resolved {A} a.
Arguments Rejected {A} e%_string.

(** The argument of [Notifications.scheduleNotificationAsync]. *)
Record NotificationRequest := mkRequest {
  title : string;
  body : jsstring;
  data_taskId : Z;
  trigger_date : Date
}.

(** What the platform answers during one handler call. *)
Record Platform := mkPlatform {
  Date_now : Z;
  new_Date : Date;
  scheduleNotificationAsync : NotificationRequest -> Outcome jsstring;
  cancelScheduledNotificationAsync : jsstring -> Outcome unit
}.

Inductive Event :=
| Alert_alert (title message : string)
| console_error (message : string) (error : Error)
| ScheduleRequested (request : NotificationRequest)
| CancelRequested (identifier : jsstring)
| SetItemRequested (key value : jsstring).
Arguments console_error message%_string error%_string.

(** ** Handler bodies: next state, trace, and how the promise settles *)

Definition Handler (A : Type) : Type :=
  AppState -> Outcome A * AppState * list Event.

Definition ret {A} (a : A) : Handler A := fun s => (Resolved a, s, []).

Definition bind {A B} (m : Handler A) (k : A -> Handler B) : Handler B :=
  fun s =>
    match m s with
    | (Resolved a, s1, tr1) =>
        let '(r, s2, tr2) := k a s1 in (r, s2, tr1 ++ tr2)
    | (Rejected e, s1, tr1) => (Rejected e, s1, tr1)
    end.

Notation "x <- m ;; k" := (bind m (fun x => k))
  (at level 100, m at next level, right associativity).
Notation "m ;;; k" := (bind m (fun _ => k))
  (at level 100, right associativity).

Definition emit (e : Event) : Handler unit := fun s => (Resolved tt, s, [e]).

Definition update (f : AppState -> AppState) : Handler unit :=
  fun s => (Resolved tt, f s, []).

(** [await] of a promise the platform has settled. *)
Definition await {A} (o : Outcome A) : Handler A := fun s => (o, s, []).

Definition try_catch {A} (m : Handler A) (h : Error -> Handler A) : Handler A :=
  fun s =>
    match m s with
    | (Resolved a, s1, tr1) => (Resolved a, s1, tr1)
    | (Rejected e, s1, tr1) =>
        let '(r, s2, tr2) := h e s1 in (r, s2, tr1 ++ tr2)
    end.

(** The two notification calls, with the request left in the trace. *)
Definition schedule (P : Platform) (req : NotificationRequest) : Handler jsstring :=
  emit (ScheduleRequested req) ;;; await (scheduleNotificationAsync P req).

Definition cancel (P : Platform) (nid : jsstring) : Handler unit :=
  emit (CancelRequested nid) ;;; await (cancelScheduledNotificationAsync P nid).

(** ** The handlers of [TaskApp] *)

Definition resetForm : Handler unit :=
  update (setTask []) ;;;
  update (setCategory []) ;;;
  update (setPriority Low) ;;;
  update (setReminderDate None).

(** [reminderDate && reminderDate > new Date()]: a Date object is truthy and
    [>] compares the two time values. *)
Definition inFuture (P : Platform) (d : option Date) : option Date :=
  match d with
  | Some r => if getTime (new_Date P) <? getTime r then Some r else None
  | None => None
  end.

Definition reminderRequest (body : jsstring) (taskId : Z) (r : Date) :=
  mkRequest "Task Reminder" body taskId r.

Definition withNotificationId (t : Task) (n : option jsstring) : Task :=
  mkTask (id t) (text t) (completed t) (priority t) (category t)
         (reminderDate t) n.

Definition addTask (P : Platform) (st : AppState) : Handler unit :=
  if negb (JsString.truthy (trim (s_task st))) then
    emit (Alert_alert "Error" "Task text cannot be empty")
  else
    let newTask :=
      mkTask (Date_now P) (trim (s_task st)) false (s_priority st)
             (trim (s_category st)) (s_reminderDate st) None in
    try_catch
      (newTask' <-
         match inFuture P (s_reminderDate st) with
         | Some r =>
             notificationId <-
               schedule P (reminderRequest (trim (s_task st)) (id newTask) r) ;;
             ret (withNotificationId newTask (Some notificationId))
         | None => ret newTask
         end ;;
       update (setTasksTo (s_tasks st ++ [newTask'])) ;;;
       resetForm)
      (fun error =>
         emit (console_error "Error adding task:" error) ;;;
         emit (Alert_alert "Error" "Failed to add task")).

(** ToBoolean of an optional string field. *)
Definition truthyId (n : option jsstring) : option jsstring :=
  match n with
  | Some s => if JsString.truthy s then Some s else None
  | None => None
  end.

Definition updateTask (P : Platform) (st : AppState) : Handler unit :=
  match s_editingTask st with
  | None => ret tt
  | Some editingTask =>
      if negb (JsString.truthy (trim (s_task st))) then ret tt
      else
        try_catch
          (match truthyId (notificationId editingTask) with
           | Some n => cancel P n
           | None => ret tt
           end ;;;
           notificationId' <-
             match inFuture P (s_reminderDate st) with
             | Some r =>
                 newNotificationId <-
                   schedule P (reminderRequest (trim (s_task st))
                                               (id editingTask) r) ;;
                 ret (Some newNotificationId)
             | None => ret None
             end ;;
           update (setTasksTo
             (List.map (fun t =>
                if id t =? id editingTask then
                  mkTask (id t) (trim (s_task st)) (completed t)
                         (s_priority st) (trim (s_category st))
                         (s_reminderDate st) notificationId'
                else t) (s_tasks st))) ;;;
           update (setEditingTask None) ;;;
           resetForm)
          (fun error =>
             emit (console_error "Error updating task:" error) ;;;
             emit (Alert_alert "Error" "Failed to update task"))
  end.

Definition toggleComplete (taskId : Z) : Handler unit :=
  update (fun s => setTasksTo
    (List.map (fun t =>
       if id t =? taskId then
         mkTask (id t) (text t) (negb (completed t)) (priority t)
                (category t) (reminderDate t) (notificationId t)
       else t) (s_tasks s)) s).

Definition deleteTask (P : Platform) (taskId : Z) (st : AppState) : Handler unit :=
  let taskToDelete := List.find (fun t => id t =? taskId) (s_tasks st) in
  match truthyId (taskToDelete ≫= notificationId) with
  | Some n => cancel P n
  | None => ret tt
  end ;;;
  update (fun s => setTasksTo
    (List.filter (fun t => negb (id t =? taskId)) (s_tasks s)) s).

Definition startEditing (t : Task) : Handler unit :=
  update (setEditingTask (Some t)) ;;;
  update (setTask (text t)) ;;;
  update (setPriority (priority t)) ;;;
  update (setCategory (category t)) ;;;
  update (setReminderDate (reminderDate t)).

(** Running a handler created in the render whose state is [st]. *)
Definition run {A} (h : AppState -> Handler A) (st : AppState) :=
  h st st.


(** ** Arrays as heap objects

    [Array.prototype.filter] allocates a new array; [Array.prototype.sort]
    sorts the array it is called on in place and returns that same array.
    Whether the stored collection survives [filteredTasks] depends on which
    array [sort] is applied to, so arrays live in a heap and are named by
    their address. The callbacks of [filteredTasks] only read the task
    objects, which are therefore kept by value inside the arrays. *)

Definition loc := positive.
Abbreviation Heap := (gmap loc (list Task)).

Definition alloc (v : list Task) (h : Heap) : loc * Heap :=
  let l := fresh (dom h) in (l, <[l := v]> h).

(** The order [sort] produces for a consistent comparator: elements are
    arranged so that [compareFn a b <= 0] for [a] before [b], and elements
    that compare equal keep their original order (the sort is stable, as
    ECMAScript requires since ES2019). Only the sign of [compareFn] is
    looked at. *)
Fixpoint sort_insert (compareFn : Task -> Task -> Z) (x : Task) (l : list Task) :=
  match l with
  | [] => [x]
  | y :: l' =>
      if compareFn x y <=? 0 then x :: l
      else y :: sort_insert compareFn x l'
  end.

Fixpoint sorted_copy (compareFn : Task -> Task -> Z) (l : list Task) :=
  match l with
  | [] => []
  | x :: l' => sort_insert compareFn x (sorted_copy compareFn l')
  end.

Definition Array_filter (p : Task -> bool) (a : loc) (h : Heap)
  : option (loc * Heap) :=
  match h !! a with
  | Some v => Some (alloc (List.filter p v) h)
  | None => None
  end.

Definition Array_sort (compareFn : Task -> Task -> Z) (a : loc) (h : Heap)
  : option (loc * Heap) :=
  match h !! a with
  | Some v => Some (a, <[a := sorted_copy compareFn v]> h)
  | None => None
  end.

(** ** The projection [filteredTasks] *)

Definition filterFn (filter : Filter) (t : Task) : bool :=
  match filter with
  | Completed => completed t
  | Pending => negb (completed t)
  | All => true
  end.

Definition priorityOrder (p : Priority) : Z :=
  match p with High => 3 | Medium => 2 | Low => 1 end.

(** [a.reminderDate?.getTime() || 0]: [undefined] and [0] are both falsy. *)
Definition timeOrZero (d : option Date) : Z :=
  match d with
  | Some r => if getTime r =? 0 then 0 else getTime r
  | None => 0
  end.

(** The comparator. The differences are taken on integers: on the numbers
    of the source (IEEE doubles holding integers) the subtraction may round,
    but never changes sign nor rounds a non-zero difference to zero. *)
Definition compareFn (sortBy : SortBy) (a b : Task) : Z :=
  match sortBy with
  | SortPriority => priorityOrder (priority b) - priorityOrder (priority a)
  | SortDate => timeOrZero (reminderDate a) - timeOrZero (reminderDate b)
  | SortNone => 0
  end.

Definition filteredTasks (filter : Filter) (sortBy : SortBy) (tasks : loc)
  (h : Heap) : option (loc * Heap) :=
  match Array_filter (filterFn filter) tasks h with
  | Some (filtered, h1) => Array_sort (compareFn sortBy) filtered h1
  | None => None
  end.

(** The sequence [filteredTasks] evaluates to, as a function of the
    contents of [tasks]. *)
Definition project (filter : Filter) (sortBy : SortBy) (tasks : list Task) :=
  sorted_copy (compareFn sortBy) (List.filter (filterFn filter) tasks).

(** The reminders the screen gives a task: the date picker offers no date
    before the current time ([minimumDate={new Date()}]), so a reminder is
    after the epoch. *)
Definition afterEpoch (t : Task) : Prop :=
  match reminderDate t with
  | Some d => 0 < getTime d
  | None => True
  end.

(** ** Sessions of add calls *)

(** What the user typed and picked before pressing the add button, and what
    the platform answered during the call. *)
Record AddCall := mkAddCall {
  draftText : jsstring;
  draftPriority : Priority;
  draftCategory : jsstring;
  draftReminder : option Date;
  platform : Platform
}.

Definition fillForm (c : AddCall) (s : AppState) : AppState :=
  setReminderDate (draftReminder c)
    (setCategory (draftCategory c)
       (setPriority (draftPriority c) (setTask (draftText c) s))).

Definition nextState {A} (r : Outcome A * AppState * list Event) : AppState :=
  snd (fst r).

Definition trace {A} (r : Outcome A * AppState * list Event) : list Event :=
  snd r.

Definition add (c : AddCall) (s : AppState) : AppState :=
  nextState (run (addTask (platform c)) (fillForm c s)).

Definition session (calls : list AddCall) (s : AppState) : AppState :=
  fold_left (fun s c => add c s) calls s.

Definition emptyState : AppState :=
  mkState [] [] Low [] None All SortNone None.

Definition Priority_eqb (p q : Priority) : bool :=
  match p, q with
  | Low, Low | Medium, Medium | High, High => true
  | _, _ => false
  end.

(** ** Numbers and dates as text

    [JSON.stringify] writes the id with [Number::toString] and a [Date]
    through [Date.prototype.toISOString]; loading reads them back with
    [JSON.parse] and [new Date(string)]. These library functions are
    modelled on code units. A [None] from [Date_parse] means that the text
    is not covered by the model (another date format, or a text the library
    rejects). *)

Definition digit (d : Z) : N := Z.to_N (48 + d).

Definition isDigit (c : N) : bool := ((48 <=? c) && (c <=? 57))%N.

Definition digitValue (c : N) : Z := Z.of_N c - 48.

(** The decimal digits of a non-negative integer, most significant first,
    without leading zero. *)
Fixpoint digitsOf (fuel : nat) (n : Z) (acc : jsstring) : jsstring :=
  match fuel with
  | O => acc
  | S f =>
      let acc' := digit (n mod 10) :: acc in
      if n / 10 =? 0 then acc' else digitsOf f (n / 10) acc'
  end.

(** [Number::toString] on an integer below 10^21. *)
Definition Number_toString (n : Z) : jsstring :=
  if n <? 0 then chr "-" :: digitsOf (S (Z.to_nat (Z.log2 (- n)))) (- n) []
  else digitsOf (S (Z.to_nat (Z.log2 n))) n [].

(** [w] digits, zero-padded. *)
Fixpoint pad (w : nat) (n : Z) : jsstring :=
  match w with
  | O => []
  | S w' => pad w' (n / 10) ++ [digit (n mod 10)]
  end.

Fixpoint readDigits (w : nat) (s : jsstring) (acc : Z) : option (Z * jsstring) :=
  match w with
  | O => Some (acc, s)
  | S w' =>
      match s with
      | c :: s' =>
          if isDigit c then readDigits w' s' (10 * acc + digitValue c)
          else None
      | [] => None
      end
  end.

Definition expect (c : N) (s : jsstring) : option jsstring :=
  match s with
  | c' :: s' => if (c' =? c)%N then Some s' else None
  | [] => None
  end.

(** *** The proleptic Gregorian calendar *)

Definition msPerDay : Z := 86400000.

(** The largest time value of a Date. *)
Definition maxTime : Z := 8640000000000000.

(** Year, month (1..12) and day of the month of a day number (days since
    1970-01-01), by 400-year eras that start on a 1st of March. *)
Definition civilFromDays (day : Z) : Z * Z * Z :=
  let z := day + 719468 in
  let era := z / 146097 in
  let doe := z mod 146097 in
  let yoe := (doe - doe / 1460 + doe / 36524 - doe / 146096) / 365 in
  let doy := doe - (365 * yoe + yoe / 4 - yoe / 100) in
  let mp := (5 * doy + 2) / 153 in
  let d := doy - (153 * mp + 2) / 5 + 1 in
  let m := if mp <? 10 then mp + 3 else mp - 9 in
  (yoe + era * 400 + (if m <=? 2 then 1 else 0), m, d).

(** The day number of a year, month and day of the month. *)
Definition daysFromCivil (y m d : Z) : Z :=
  let y' := y - (if m <=? 2 then 1 else 0) in
  let era := y' / 400 in
  let yoe := y' mod 400 in
  let doy := (153 * (if 2 <? m then m - 3 else m + 9) + 2) / 5 + d - 1 in
  let doe := yoe * 365 + yoe / 4 - yoe / 100 + doy in
  era * 146097 + doe - 719468.

(** *** [Date.prototype.toISOString] and its reading back *)

Definition yearString (y : Z) : jsstring :=
  if (0 <=? y) && (y <=? 9999) then pad 4 y
  else (if y <? 0 then chr "-" else chr "+") :: pad 6 (Z.abs y).

Definition Date_toISOString (d : Date) : jsstring :=
  let t := getTime d in
  let '(y, m, dd) := civilFromDays (t / msPerDay) in
  let ms := t mod msPerDay in
  yearString y ++ chr "-" :: pad 2 m ++ chr "-" :: pad 2 dd ++
  chr "T" :: pad 2 (ms / 3600000) ++ chr ":" :: pad 2 (ms / 60000 mod 60) ++
  chr ":" :: pad 2 (ms / 1000 mod 60) ++ chr "." :: pad 3 (ms mod 1000) ++
  [chr "Z"].

Definition readYear (s : jsstring) : option (Z * jsstring) :=
  match s with
  | c :: s' =>
      if (c =? chr "+")%N then readDigits 6 s' 0
      else if (c =? chr "-")%N then
        match readDigits 6 s' 0 with
        | Some (y, r) => if y =? 0 then None else Some (- y, r)
        | None => None
        end
      else readDigits 4 s 0
  | [] => None
  end.

(** [new Date(string)] on the format [toISOString] writes:
    [YYYY-MM-DDTHH:mm:ss.sssZ], or with a signed six-digit year. The fields
    must denote a date of the calendar and a time of the day, and the time
    value must be in the range of Date. *)
Definition Date_parse (s : jsstring) : option Date :=
  '(y, s) ← readYear s;
  s ← expect (chr "-") s;
  '(m, s) ← readDigits 2 s 0;
  s ← expect (chr "-") s;
  '(d, s) ← readDigits 2 s 0;
  s ← expect (chr "T") s;
  '(hh, s) ← readDigits 2 s 0;
  s ← expect (chr ":") s;
  '(mm, s) ← readDigits 2 s 0;
  s ← expect (chr ":") s;
  '(ss, s) ← readDigits 2 s 0;
  s ← expect (chr ".") s;
  '(ms, s) ← readDigits 3 s 0;
  s ← expect (chr "Z") s;
  match s with
  | [] =>
      let day := daysFromCivil y m d in
      let t := day * msPerDay + hh * 3600000 + mm * 60000 + ss * 1000 + ms in
      if bool_decide (civilFromDays day = (y, m, d))
         && (hh <=? 23) && (mm <=? 59) && (ss <=? 59)
         && (- maxTime <=? t) && (t <=? maxTime)
      then Some (mkDate t) else None
  | _ :: _ => None
  end.

(** ** JSON text *)

#[warnings="-register-all"]
Inductive JSON :=
| JNull
| JBool (b : bool)
| JNumber (n : Z)
| JString (s : jsstring)
| JArray (elements : list JSON)
| JObject (members : list (jsstring * JSON)).

(** *** [JSON.stringify]: serialization of a JSON value, without indent *)

Definition hexDigit (n : N) : N := (if n <? 10 then 48 + n else 87 + n)%N.

Definition unicodeEscape (c : N) : jsstring :=
  [chr "\"; chr "u"; hexDigit (c / 4096 mod 16); hexDigit (c / 256 mod 16);
   hexDigit (c / 16 mod 16); hexDigit (c mod 16)]%N.

Definition isHighSurrogate (c : N) : bool := ((0xD800 <=? c) && (c <=? 0xDBFF))%N.
Definition isLowSurrogate (c : N) : bool := ((0xDC00 <=? c) && (c <=? 0xDFFF))%N.

(** One code unit that is not part of a surrogate pair. *)
Definition quoteUnit (c : N) : jsstring :=
  (if c =? 8 then [chr "\"; chr "b"]
   else if c =? 9 then [chr "\"; chr "t"]
   else if c =? 10 then [chr "\"; chr "n"]
   else if c =? 12 then [chr "\"; chr "f"]
   else if c =? 13 then [chr "\"; chr "r"]
   else if c =? 34 then [chr "\"; 34]
   else if c =? 92 then [chr "\"; chr "\"]
   else if (c <? 32) || isHighSurrogate c || isLowSurrogate c
        then unicodeEscape c
   else [c])%N.

Fixpoint quoteUnits (s : jsstring) : jsstring :=
  match s with
  | [] => []
  | c :: s' =>
      match s' with
      | d :: s'' =>
          if isHighSurrogate c && isLowSurrogate d
          then c :: d :: quoteUnits s''
          else quoteUnit c ++ quoteUnits s'
      | [] => quoteUnit c
      end
  end.

Definition QuoteJSONString (s : jsstring) : jsstring :=
  34%N :: quoteUnits s ++ [34%N].

Definition serializeElements (serialize : JSON -> jsstring) :=
  fix go (l : list JSON) : jsstring :=
    match l with
    | [] => [chr "]"]
    | x :: l' =>
        serialize x ++
        match l' with
        | [] => [chr "]"]
        | _ :: _ => chr "," :: go l'
        end
    end.

Definition serializeMembers (serialize : JSON -> jsstring) :=
  fix go (l : list (jsstring * JSON)) : jsstring :=
    match l with
    | [] => [chr "}"]
    | (k, x) :: l' =>
        QuoteJSONString k ++ chr ":" :: serialize x ++
        match l' with
        | [] => [chr "}"]
        | _ :: _ => chr "," :: go l'
        end
    end.

Fixpoint JSON_serialize (v : JSON) : jsstring :=
  match v with
  | JNull => js "null"
  | JBool b => if b then js "true" else js "false"
  | JNumber n => Number_toString n
  | JString s => QuoteJSONString s
  | JArray l => chr "[" :: serializeElements JSON_serialize l
  | JObject l => chr "{" :: serializeMembers JSON_serialize l
  end.

(** *** [JSON.parse] *)

Definition isJSONWhiteSpace (c : N) : bool :=
  ((c =? 9) || (c =? 10) || (c =? 13) || (c =? 32))%N.

Fixpoint skipWhiteSpace (s : jsstring) : jsstring :=
  match s with
  | c :: s' => if isJSONWhiteSpace c then skipWhiteSpace s' else s
  | [] => []
  end.

Definition hexValue (c : N) : option N :=
  (if isDigit c then Some (c - 48)
   else if (97 <=? c) && (c <=? 102) then Some (c - 87)
   else if (65 <=? c) && (c <=? 70) then Some (c - 55)
   else None)%N.

Definition simpleEscape (e : N) : option N :=
  (if e =? 34 then Some 34
   else if e =? chr "\" then Some 92
   else if e =? chr "/" then Some 47
   else if e =? chr "b" then Some 8
   else if e =? chr "f" then Some 12
   else if e =? chr "n" then Some 10
   else if e =? chr "r" then Some 13
   else if e =? chr "t" then Some 9
   else None)%N.

(** The characters of a string literal, after its opening quote. *)
Fixpoint parseString (s : jsstring) : option (jsstring * jsstring) :=
  match s with
  | [] => None
  | c :: r =>
      if (c =? 34)%N then Some ([], r)
      else if (c =? chr "\")%N then
        match r with
        | e :: r1 =>
            if (e =? chr "u")%N then
              match r1 with
              | h1 :: h2 :: h3 :: h4 :: r2 =>
                  match hexValue h1, hexValue h2, hexValue h3, hexValue h4,
                        parseString r2 with
                  | Some a, Some b, Some c', Some d, Some (str, rest) =>
                      Some ((a * 4096 + b * 256 + c' * 16 + d)%N :: str, rest)
                  | _, _, _, _, _ => None
                  end
              | _ => None
              end
            else
              match simpleEscape e, parseString r1 with
              | Some x, Some (str, rest) => Some (x :: str, rest)
              | _, _ => None
              end
        | [] => None
        end
      else if (c <? 32)%N then None
      else
        match parseString r with
        | Some (str, rest) => Some (c :: str, rest)
        | None => None
        end
  end.

Fixpoint parseDigits (s : jsstring) (acc : Z) : Z * jsstring :=
  match s with
  | c :: s' =>
      if isDigit c then parseDigits s' (10 * acc + digitValue c) else (acc, s)
  | [] => (acc, [])
  end.

(** The integer part of a number: [0], or digits that do not start with
    [0]. *)
Definition parseInt (s : jsstring) : option (Z * jsstring) :=
  match s with
  | c :: s' =>
      if (c =? 48)%N then Some (0, s')
      else if isDigit c then Some (parseDigits s' (digitValue c))
      else None
  | [] => None
  end.

(** What a JSON text denotes: [Exact v], or [Inexact] when the text holds
    a number that the model does not hold. The numbers of the model are the
    integers that a double holds exactly and [Number::toString] writes in
    digits: a number written with a fraction or an exponent, a negative
    zero, or an integer beyond 2^53 - 1 (which the library rounds) makes the
    whole text [Inexact]. *)
Inductive Parsed (A : Type) :=
| Exact (a : A)
| Inexact.
Arguments Exact {A} a.
Arguments Inexact {A}.

Definition Parsed_map {A B} (f : A -> B) (p : Parsed A) : Parsed B :=
  match p with
  | Exact a => Exact (f a)
  | Inexact => Inexact
  end.

Definition Parsed_map2 {A B C} (f : A -> B -> C) (p : Parsed A)
  (q : Parsed B) : Parsed C :=
  match p, q with
  | Exact a, Exact b => Exact (f a b)
  | _, _ => Inexact
  end.

(** [Number.MAX_SAFE_INTEGER] *)
Definition MAX_SAFE_INTEGER : Z := 9007199254740991.

(** The digits of a fraction or of an exponent: one at least. *)
Definition skipDigits (s : jsstring) : option jsstring :=
  match s with
  | c :: s' => if isDigit c then Some (snd (parseDigits s' 0)) else None
  | [] => None
  end.

(** An optional fraction: whether there is one, and the text after it. *)
Definition parseFraction (s : jsstring) : option (bool * jsstring) :=
  match s with
  | c :: s' =>
      if (c =? chr ".")%N then
        match skipDigits s' with
        | Some r => Some (true, r)
        | None => None
        end
      else Some (false, s)
  | [] => Some (false, s)
  end.

(** An optional exponent, likewise. *)
Definition parseExponent (s : jsstring) : option (bool * jsstring) :=
  match s with
  | c :: s' =>
      if ((c =? chr "e") || (c =? chr "E"))%N then
        match
          skipDigits
            match s' with
            | c' :: r =>
                if ((c' =? chr "+") || (c' =? chr "-"))%N then r else s'
            | [] => s'
            end
        with
        | Some r => Some (true, r)
        | None => None
        end
      else Some (false, s)
  | [] => Some (false, s)
  end.

(** A number: an optional minus sign, the integer part, an optional
    fraction and an optional exponent. [None] is a syntax error. *)
Definition parseNumber (s : jsstring) : option (Parsed JSON * jsstring) :=
  let '(negative, s1) :=
    match s with
    | c :: s' => if (c =? chr "-")%N then (true, s') else (false, s)
    | [] => (false, s)
    end in
  match parseInt s1 with
  | Some (n, r) =>
      match parseFraction r with
      | Some (fraction, r1) =>
          match parseExponent r1 with
          | Some (exponent, r2) =>
              if fraction || exponent || (negative && (n =? 0))
                 || (MAX_SAFE_INTEGER <? n)
              then Some (Inexact, r2)
              else Some (Exact (JNumber (if negative then - n else n)), r2)
          | None => None
          end
      | None => None
      end
  | None => None
  end.

Fixpoint isPrefix (p s : jsstring) : option jsstring :=
  match p, s with
  | [], _ => Some s
  | a :: p', b :: s' => if (a =? b)%N then isPrefix p' s' else None
  | _ :: _, [] => None
  end.

Fixpoint parseValue (fuel : nat) (s : jsstring) {struct fuel}
  : option (Parsed JSON * jsstring) :=
  match fuel with
  | O => None
  | S f =>
      match skipWhiteSpace s with
      | [] => None
      | c :: r =>
          if (c =? 34)%N then
            match parseString r with
            | Some (str, rest) => Some (Exact (JString str), rest)
            | None => None
            end
          else if (c =? chr "[")%N then
            match skipWhiteSpace r with
            | c1 :: r1 =>
                if (c1 =? chr "]")%N then Some (Exact (JArray []), r1)
                else
                  match parseElements f r with
                  | Some (l, rest) => Some (Parsed_map JArray l, rest)
                  | None => None
                  end
            | [] => None
            end
          else if (c =? chr "{")%N then
            match skipWhiteSpace r with
            | c1 :: r1 =>
                if (c1 =? chr "}")%N then Some (Exact (JObject []), r1)
                else
                  match parseMembers f r with
                  | Some (l, rest) => Some (Parsed_map JObject l, rest)
                  | None => None
                  end
            | [] => None
            end
          else if (c =? chr "n")%N then
            match isPrefix (js "ull") r with
            | Some rest => Some (Exact JNull, rest)
            | None => None
            end
          else if (c =? chr "t")%N then
            match isPrefix (js "rue") r with
            | Some rest => Some (Exact (JBool true), rest)
            | None => None
            end
          else if (c =? chr "f")%N then
            match isPrefix (js "alse") r with
            | Some rest => Some (Exact (JBool false), rest)
            | None => None
            end
          else parseNumber (c :: r)
      end
  end
with parseElements (fuel : nat) (s : jsstring) {struct fuel}
  : option (Parsed (list JSON) * jsstring) :=
  match fuel with
  | O => None
  | S f =>
      match parseValue f s with
      | Some (v, r) =>
          match skipWhiteSpace r with
          | c :: r1 =>
              if (c =? chr ",")%N then
                match parseElements f r1 with
                | Some (l, rest) => Some (Parsed_map2 cons v l, rest)
                | None => None
                end
              else if (c =? chr "]")%N
              then Some (Parsed_map (fun x => [x]) v, r1)
              else None
          | [] => None
          end
      | None => None
      end
  end
with parseMembers (fuel : nat) (s : jsstring) {struct fuel}
  : option (Parsed (list (jsstring * JSON)) * jsstring) :=
  match fuel with
  | O => None
  | S f =>
      match skipWhiteSpace s with
      | c :: r =>
          if (c =? 34)%N then
            match parseString r with
            | Some (k, r1) =>
                match skipWhiteSpace r1 with
                | c1 :: r2 =>
                    if (c1 =? chr ":")%N then
                      match parseValue f r2 with
                      | Some (v, r3) =>
                          match skipWhiteSpace r3 with
                          | c2 :: r4 =>
                              if (c2 =? chr ",")%N then
                                match parseMembers f r4 with
                                | Some (l, rest) =>
                                    Some (Parsed_map2
                                            (fun x l' => (k, x) :: l') v l,
                                          rest)
                                | None => None
                                end
                              else if (c2 =? chr "}")%N
                              then Some (Parsed_map (fun x => [(k, x)]) v, r4)
                              else None
                          | [] => None
                          end
                      | None => None
                      end
                    else None
                | [] => None
                end
            | None => None
            end
          else None
      | [] => None
      end
  end.

(** [JSON.parse]: one value, with nothing but white space after it.
    [None] stands for the SyntaxError the library throws. The fuel is
    never used up: a nested value costs two units and is at least one
    code unit shorter than the text it is part of, so that more fuel
    gives the same answer ([JSON_parse_fuel]). *)
Definition JSON_parse (s : jsstring) : option (Parsed JSON) :=
  match parseValue (S (length s + length s)) s with
  | Some (v, rest) =>
      match skipWhiteSpace rest with
      | [] => Some v
      | _ :: _ => None
      end
  | None => None
  end.

(** *** Vocabulary for the round trip of JSON text *)

(** The number a sequence of digits denotes, continuing from [acc]. *)
Definition digitsValue (ds : jsstring) (acc : Z) : Z :=
  fold_left (fun a c => 10 * a + digitValue c) ds acc.

(** What follows a value in serialized text: nothing, or one of [,] [\]]
    [}]. *)
Definition delimited (rest : jsstring) : bool :=
  match rest with
  | [] => true
  | c :: _ => ((c =? chr ",") || (c =? chr "]") || (c =? chr "}"))%N
  end.

(** The code units a serialized value can start with. *)
Definition startsValue (c : N) : bool :=
  ((c =? 34) || (c =? chr "[") || (c =? chr "{") || (c =? chr "n") ||
   (c =? chr "t") || (c =? chr "f") || (c =? chr "-") || isDigit c)%N.

(** The values all of whose numbers the model holds. *)
Fixpoint exact (v : JSON) : bool :=
  match v with
  | JNumber n => Z.abs n <=? MAX_SAFE_INTEGER
  | JArray l => forallb exact l
  | JObject l => forallb (fun m => exact (snd m)) l
  | _ => true
  end.

(** ** Persistence: [saveTasks] and [loadTasks] *)

Definition STORAGE_KEY : jsstring := js "tasks".

Definition Priority_toString (p : Priority) : jsstring :=
  match p with
  | Low => js "Low"
  | Medium => js "Medium"
  | High => js "High"
  end.

Definition Priority_ofString (s : jsstring) : option Priority :=
  if JsString.eqb s (js "Low") then Some Low
  else if JsString.eqb s (js "Medium") then Some Medium
  else if JsString.eqb s (js "High") then Some High
  else None.

(** What [JSON.stringify] makes of a task object: its properties in the
    order the handlers create them, a property whose value is [undefined]
    being left out, and the Date written by its [toJSON], which is
    [toISOString]. *)
Definition Task_toJSON (t : Task) : JSON :=
  JObject
    ([(js "id", JNumber (id t));
      (js "text", JString (text t));
      (js "completed", JBool (completed t));
      (js "priority", JString (Priority_toString (priority t)));
      (js "category", JString (category t))]
     ++ match reminderDate t with
        | Some d => [(js "reminderDate", JString (Date_toISOString d))]
        | None => []
        end
     ++ match notificationId t with
        | Some n => [(js "notificationId", JString n)]
        | None => []
        end).

(** [JSON.stringify(tasks)] *)
Definition JSON_stringify (tasks : list Task) : jsstring :=
  JSON_serialize (JArray (List.map Task_toJSON tasks)).

(** The save effect, run after every change of [tasks]. *)
Definition saveTasks (setItem : jsstring -> jsstring -> Outcome unit)
  (st : AppState) : Handler unit :=
  try_catch
    (emit (SetItemRequested STORAGE_KEY (JSON_stringify (s_tasks st))) ;;;
     await (setItem STORAGE_KEY (JSON_stringify (s_tasks st))))
    (fun error => emit (console_error "Failed to save tasks" error)).

(** The value of a property of a parsed object; of two members with the
    same name the later one counts. *)
Definition getMember (name : jsstring) (members : list (jsstring * JSON))
  : option JSON :=
  fold_left
    (fun found m => if JsString.eqb (fst m) name then Some (snd m) else found)
    members None.

(** [task.reminderDate ? new Date(task.reminderDate) : undefined]. The outer
    [None] means that the value is not one the model covers. *)
Definition reviveReminderDate (v : option JSON) : option (option Date) :=
  match v with
  | None => Some None
  | Some JNull => Some None
  | Some (JBool false) => Some None
  | Some (JNumber n) =>
      if n =? 0 then Some None
      else if (- maxTime <=? n) && (n <=? maxTime) then Some (Some (mkDate n))
      else None
  | Some (JString s) =>
      if JsString.truthy s then
        match Date_parse s with
        | Some d => Some (Some d)
        | None => None
        end
      else Some None
  | Some _ => None
  end.

(** One element of [parsedTasks.map(...)], read as a [Task]. The source
    copies whatever the parsed value holds; [None] is answered for a value
    that is not an object of type [Task]. *)
Definition reviveTask (task : JSON) : option Task :=
  match task with
  | JObject members =>
      match getMember (js "id") members,
            getMember (js "text") members,
            getMember (js "completed") members,
            getMember (js "priority") members,
            getMember (js "category") members,
            reviveReminderDate (getMember (js "reminderDate") members)
      with
      | Some (JNumber i), Some (JString t), Some (JBool c),
        Some (JString p), Some (JString g), Some r =>
          match Priority_ofString p, getMember (js "notificationId") members with
          | Some p', None => Some (mkTask i t c p' g r None)
          | Some p', Some (JString n) => Some (mkTask i t c p' g r (Some n))
          | _, _ => None
          end
      | _, _, _, _, _, _ => None
      end
  | _ => None
  end.

Fixpoint reviveTasks (l : list JSON) : option (list Task) :=
  match l with
  | [] => Some []
  | x :: l' =>
      match reviveTask x, reviveTasks l' with
      | Some t, Some ts => Some (t :: ts)
      | _, _ => None
      end
  end.

Definition isNull (v : JSON) : bool :=
  match v with
  | JNull => true
  | _ => false
  end.

(** [parsedTasks.map(task => ({...task, reminderDate: ...}))]. The call
    throws a TypeError when [parsedTasks] is not an array (it has no [map]
    to call) and when an element is [null] (reading [task.reminderDate]);
    on every other element the callback returns an object. [None] is
    answered when one of these objects is not of type [Task]. *)
Definition mapWithDates (parsedTasks : JSON) : option (Outcome (list Task)) :=
  match parsedTasks with
  | JArray l =>
      if existsb isNull l then Some (Rejected "TypeError")
      else
        match reviveTasks l with
        | Some ts => Some (Resolved ts)
        | None => None
        end
  | _ => Some (Rejected "TypeError")
  end.

(** [JSON.parse(savedTasks)] followed by the [map] that rebuilds the
    dates: the tasks, or the error thrown on the way. [None] is answered
    for a text that the model does not cover. *)
Definition tasksWithDates (savedTasks : jsstring)
  : option (Outcome (list Task)) :=
  match JSON_parse savedTasks with
  | Some (Exact parsedTasks) => mapWithDates parsedTasks
  | Some Inexact => None
  | None => Some (Rejected "SyntaxError")
  end.

(** The load effect, run once at startup. [getItem] is the answer of the
    storage. Whatever is thrown inside the [try] (a failed read, a text
    that is not JSON, a value that is not an array of objects) is caught
    and logged. [None] is answered for a stored text that the model does
    not cover. *)
Definition loadTasks (getItem : jsstring -> Outcome (option jsstring))
  : option (Handler unit) :=
  let onError error := emit (console_error "Failed to load tasks" error) in
  match getItem STORAGE_KEY with
  | Rejected error => Some (try_catch (await (Rejected error)) onError)
  | Resolved None => Some (ret tt)
  | Resolved (Some savedTasks) =>
      if JsString.truthy savedTasks then
        match tasksWithDates savedTasks with
        | Some loaded =>
            Some (try_catch
                    (tasksWithDates <- await loaded ;;
                     update (setTasksTo tasksWithDates))
                    onError)
        | None => None
        end
      else Some (ret tt)
  end.

(** The values a task can hold in the running program: the id is an
    integer that a number holds exactly, the reminder is a valid Date. *)
Definition persistable (t : Task) : Prop :=
  Z.abs (id t) <= 9007199254740991 /\
  match reminderDate t with
  | Some d => - maxTime <= getTime d <= maxTime
  | None => True
  end.

(** ** The rest of the screen: buttons, pickers and themes *)

Definition CATEGORIES : list jsstring :=
  [js "Work"; js "Personal"; js "Shopping"; js "Health"; js "Other"].

(** The "Cancel Edit" button. *)
Definition cancelEdit : Handler unit :=
  update (setEditingTask None) ;;;
  resetForm.

(** The submit button and the return key of the text input:
    [editingTask ? updateTask : addTask]. *)
Definition submit (P : Platform) (st : AppState) : Handler unit :=
  match s_editingTask st with
  | Some _ => updateTask P st
  | None => addTask P st
  end.

(** The [onChange] of the date picker, on the cells modelled here:
    [if (date) setReminderDate(date)]. *)
Definition pickDate (date : option Date) : Handler unit :=
  match date with
  | Some d => update (setReminderDate (Some d))
  | None => ret tt
  end.

Definition setFilter v (s : AppState) :=
  mkState (s_task s) (s_tasks s) (s_priority s) (s_category s)
          (s_reminderDate s) v (s_sortBy s) (s_editingTask s).
Definition setSortBy v (s : AppState) :=
  mkState (s_task s) (s_tasks s) (s_priority s) (s_category s)
          (s_reminderDate s) (s_filter s) v (s_editingTask s).

(** What the user can do on the screen; the platform answers of a call
    come with the action. *)
Inductive Action :=
| TypeText (s : jsstring)
| PickPriority (p : Priority)
| PickCategory (cat : jsstring)
| PickDate (date : option Date)
| PickFilter (f : Filter)
| PickSortBy (s : SortBy)
| PressSubmit (P : Platform)
| PressCheckbox (taskId : Z)
| PressEdit (item : Task)
| PressDelete (P : Platform) (taskId : Z)
| PressCancelEdit.

Definition handle (a : Action) (st : AppState) : Handler unit :=
  match a with
  | TypeText s => update (setTask s)
  | PickPriority p => update (setPriority p)
  | PickCategory cat => update (setCategory cat)
  | PickDate date => pickDate date
  | PickFilter f => update (setFilter f)
  | PickSortBy s => update (setSortBy s)
  | PressSubmit P => submit P st
  | PressCheckbox taskId => toggleComplete taskId
  | PressEdit item => startEditing item
  | PressDelete P taskId => deleteTask P taskId st
  | PressCancelEdit => cancelEdit
  end.

(** An action is offered by the screen: a category of the modal is one of
    [CATEGORIES], and the edit button belongs to a displayed task. *)
Definition offered (a : Action) (st : AppState) : Prop :=
  match a with
  | PickCategory cat => In cat CATEGORIES
  | PressEdit item => In item (s_tasks st)
  | _ => True
  end.

Definition step (a : Action) (st : AppState) : AppState :=
  nextState (run (handle a) st).

(** *** Properties of a stored task *)

(** The text is not empty and has no white space around it. *)
Definition tidy (t : Task) : Prop :=
  text t <> [] /\ trim (text t) = text t.

(** The category is empty or one of the modal. *)
Definition knownCategory (c : jsstring) : Prop := c = [] \/ In c CATEGORIES.

(** A notification id goes with a reminder date. *)
Definition linked (t : Task) : Prop :=
  notificationId t <> None -> reminderDate t <> None.

(** *** Themes of the task screen *)

Module Theme.

Record t := mk {
  background : string;
  text : string;
  button : string;
  buttonText : string;
  inputBackground : string;
  helper : string;
  taskBackground : string;
  priorityLow : string;
  priorityMedium : string;
  priorityHigh : string;
  editButton : string;
  deleteButton : string;
  modalBackground : string
}.

End Theme.

Definition lightTheme : Theme.t :=
  Theme.mk "#f8f9fa" "#212529" "#4361ee" "#ffffff" "#ffffff" "#6c757d"
           "#e9ecef" "#4cc9f0" "#f8961e" "#f94144" "#4895ef" "#ef233c"
           "rgba(255,255,255,0.95)".

Definition darkTheme : Theme.t :=
  Theme.mk "#121212" "#e9ecef" "#3a0ca3" "#ffffff" "#1e1e1e" "#adb5bd"
           "#2b2d42" "#4cc9f0" "#f8961e" "#f94144" "#4895ef" "#ef233c"
           "rgba(30,30,30,0.95)".

(** [ThemeProvider]: the theme of a render, and the [toggleTheme] closure
    of the render in which the cell reads [isDark]; it sets the cell to
    [!isDark] whatever the cell holds when it is called. *)
Definition themeOf (isDark : bool) : Theme.t :=
  if isDark then darkTheme else lightTheme.

Definition toggleTheme (isDark : bool) (current : bool) : bool := negb isDark.

Definition getPriorityColor (theme : Theme.t) (p : Priority) : string :=
  match p with
  | High => Theme.priorityHigh theme
  | Medium => Theme.priorityMedium theme
  | Low => Theme.priorityLow theme
  end.

(** *** [context/ThemeContext.tsx] *)

Module ThemeContext.

Record ThemeType := mkTheme {
  background : string;
  text : string;
  card : string;
  inputBackground : string;
  button : string;
  buttonText : string;
  helper : string;
  taskBackground : string;
  gradient : list string
}.

Definition lightTheme : ThemeType :=
  mkTheme "#ffffff" "#222222" "#f9f9f9" "#f0f0f0" "#00796b" "#ffffff"
          "#999999" "#e0e0e0" ["#56ab2f"; "#a8e063"]%string.

Definition darkTheme : ThemeType :=
  mkTheme "#121212" "#ffffff" "#1e1e1e" "#2c2c2c" "#00c3a0" "#ffffff"
          "#bbbbbb" "#333333" ["#232526"; "#414345"]%string.

(** The value of the context; [toggleTheme] is the cell value its call
    sets. *)
Record ThemeContextType := mkContext {
  theme : ThemeType;
  toggleTheme : bool;
  isDark : bool
}.

(** The value [ThemeProvider] provides in a render. *)
Definition ThemeProvider (isDark : bool) : option ThemeContextType :=
  Some (mkContext (if isDark then darkTheme else lightTheme)
                  (negb isDark) isDark).

(** [useTheme]: the context, or the error it throws. *)
Definition useTheme (context : option ThemeContextType)
  : ThemeContextType + Error :=
  match context with
  | Some c => inl c
  | None => inr "useTheme must be used within ThemeProvider"%string
  end.

End ThemeContext.

(** How the promise of a handler call settles. *)
Definition outcome {A} (r : Outcome A * AppState * list Event) : Outcome A :=
  fst (fst r).

(** The key the comparator of [filteredTasks] orders by: [compareFn sortBy
    a b <= 0] exactly when the key of [a] is at most the key of [b]. *)
Definition sortKey (sortBy : SortBy) (t : Task) : Z :=
  match sortBy with
  | SortPriority => - priorityOrder (priority t)
  | SortDate => timeOrZero (reminderDate t)
  | SortNone => 0
  end.

(** The ways the collection of [st] can differ after an action. *)
Inductive TasksChange (st : AppState) : list Task -> Prop :=
| Unchanged :
    TasksChange st (s_tasks st)
| Appended (now : Z) (nid : option jsstring) :
    trim (s_task st) <> [] ->
    (nid <> None -> s_reminderDate st <> None) ->
    TasksChange st
      (s_tasks st ++
       [mkTask now (trim (s_task st)) false (s_priority st)
               (trim (s_category st)) (s_reminderDate st) nid])
| Replaced (e : Task) (nid : option jsstring) :
    trim (s_task st) <> [] ->
    (nid <> None -> s_reminderDate st <> None) ->
    TasksChange st
      (List.map (fun t =>
         if id t =? id e then
           mkTask (id t) (trim (s_task st)) (completed t) (s_priority st)
                  (trim (s_category st)) (s_reminderDate st) nid
         else t) (s_tasks st))
| Toggled (taskId : Z) :
    TasksChange st
      (List.map (fun t =>
         if id t =? taskId then
           mkTask (id t) (text t) (negb (completed t)) (priority t)
                  (category t) (reminderDate t) (notificationId t)
         else t) (s_tasks st))
| Removed (taskId : Z) :
    TasksChange st
      (List.filter (fun t => negb (id t =? taskId)) (s_tasks st)).

(** The categories of the form and of the stored tasks are all empty or
    from the modal. *)
Definition categoriesKnown (st : AppState) : Prop :=
  knownCategory (s_category st) /\
  Forall (fun t => knownCategory (category t)) (s_tasks st).

(** ** Calls that overlap

    An async function runs up to its first [await] when it is called, and
    the rest when the awaited promise settles. A second press of the add
    button can therefore start a call while the first one waits for the
    notification service, both calls being closures of the same render. *)

(** [addTask] up to the [await]: the task built and the promise waited
    for, or [None] when the call has run to its end. *)
Definition addTask_begin (P : Platform) (st : AppState)
  : Handler (option (Task * Outcome jsstring)) :=
  if negb (JsString.truthy (trim (s_task st))) then
    emit (Alert_alert "Error" "Task text cannot be empty") ;;;
    ret None
  else
    let newTask :=
      mkTask (Date_now P) (trim (s_task st)) false (s_priority st)
             (trim (s_category st)) (s_reminderDate st) None in
    match inFuture P (s_reminderDate st) with
    | Some r =>
        let request := reminderRequest (trim (s_task st)) (id newTask) r in
        emit (ScheduleRequested request) ;;;
        ret (Some (newTask, scheduleNotificationAsync P request))
    | None =>
        update (setTasksTo (s_tasks st ++ [newTask])) ;;;
        resetForm ;;;
        ret None
    end.

(** [addTask] from the [await] on, once the promise has settled. *)
Definition addTask_resume (st : AppState)
  (waiting : Task * Outcome jsstring) : Handler unit :=
  try_catch
    (notificationId <- await (snd waiting) ;;
     update (setTasksTo
       (s_tasks st ++
        [withNotificationId (fst waiting) (Some notificationId)])) ;;;
     resetForm)
    (fun error =>
       emit (console_error "Error adding task:" error) ;;;
       emit (Alert_alert "Error" "Failed to add task")).

(** The order in which the promises of two waiting calls settle. *)
Inductive Settling := FirstSettlesFirst | SecondSettlesFirst.

(** Two calls of the [addTask] of the render whose state is [st], the
    second one made while the first one waits. *)
Definition addTask_overlapping (P1 P2 : Platform) (st : AppState)
  (order : Settling) : Handler unit :=
  first <- addTask_begin P1 st ;;
  second <- addTask_begin P2 st ;;
  match first, second with
  | Some waiting1, Some waiting2 =>
      match order with
      | FirstSettlesFirst =>
          addTask_resume st waiting1 ;;; addTask_resume st waiting2
      | SecondSettlesFirst =>
          addTask_resume st waiting2 ;;; addTask_resume st waiting1
      end
  | Some waiting1, None => addTask_resume st waiting1
  | None, Some waiting2 => addTask_resume st waiting2
  | None, None => ret tt
  end.

(** ** Sample inputs *)

Module Samples.

(** A platform whose clock reads [now] and on which notification calls
    settle as given. *)
Definition platformAt (now : Z) (sched : Outcome jsstring)
  (canc : Outcome unit) : Platform :=
  mkPlatform now (mkDate now) (fun _ => sched) (fun _ => canc).

Definition failing : Platform :=
  platformAt 1000 (Rejected "scheduling failed") (Rejected "cancel failed").

Definition working : Platform :=
  platformAt 1000 (Resolved (js "n-1")) (Resolved tt).

(** The form filled with "Call mom" and a reminder at time 5000. *)
Definition callMom : AppState :=
  mkState (js " Call mom ") [] Medium (js "Personal") (Some (mkDate 5000))
          All SortNone None.

(** The same with a reminder at time 500, which is past at time 1000. *)
Definition callMomLate : AppState :=
  mkState (js " Call mom ") [] Medium (js "Personal") (Some (mkDate 500))
          All SortNone None.

Definition blankDraft : AppState :=
  mkState (js "  ") [] Low [] None All SortNone None.

Definition scheduled : Task :=
  mkTask 7 (js "Call mom") false Medium (js "Personal")
         (Some (mkDate 5000)) (Some (js "n-0")).

Definition plain : Task :=
  mkTask 8 (js "Buy milk") true High (js "Shopping") None None.

(** A stored collection of two tasks, the first one being edited. *)
Definition editing : AppState :=
  mkState (js "Call dad") [scheduled; plain] High (js "Family")
          (Some (mkDate 5000)) All SortNone (Some scheduled).

Definition stored : AppState :=
  mkState [] [scheduled; plain] Low [] None All SortNone None.

(** Two more tasks: a reminder before the epoch, and one after it. *)
Definition old : Task :=
  mkTask 9 (js "Moon landing") false Low [] (Some (mkDate (-1000))) None.

Definition soon : Task :=
  mkTask 10 (js "Dentist") false Low [] (Some (mkDate 9000)) None.

(** A heap holding the stored collection at address 1. *)
Definition heap1 : Heap := {[ 1%positive := [scheduled; plain; soon] ]}.

(** Two add calls made while the clock reads 1000, and one made later. *)
Definition buyMilk : AddCall :=
  mkAddCall (js "Buy milk") Medium (js "Shopping") None working.

Definition payRent : AddCall :=
  mkAddCall (js "Pay rent") High [] None working.

Definition payRentLater : AddCall :=
  mkAddCall (js "Pay rent") High [] None
            (platformAt 1001 (Resolved (js "n-2")) (Resolved tt)).

(** A storage that accepts every write. *)
Definition setItemOk (key value : jsstring) : Outcome unit := Resolved tt.

End Samples.

Module More.

(** The form filled with "Buy milk", no reminder. *)
Definition buyMilk : AppState :=
  mkState (js " Buy milk") [] Medium (js "Shopping") None All SortNone None.

(** A task being edited with the text field emptied. *)
Definition editingBlank : AppState :=
  mkState (js " ") [Samples.scheduled; Samples.plain] High [] None
          All SortNone (Some Samples.scheduled).

(** A platform on which cancelling works and scheduling does not. *)
Definition schedulingFails : Platform :=
  Samples.platformAt 1000 (Rejected "scheduling failed") (Resolved tt).

(** The platform one millisecond later. *)
Definition later : Platform :=
  Samples.platformAt 1001 (Resolved (js "n-2")) (Resolved tt).

(** The stored collection with " Call mom " typed in the form. *)
Definition drafting : AppState :=
  mkState (js " Call mom ") [Samples.scheduled; Samples.plain] Medium
          (js "Personal") (Some (mkDate 5000)) All SortNone None.

(** The platform five seconds later, when the reminder at time 5000 is
    past. *)
Definition muchLater : Platform :=
  Samples.platformAt 6000 (Resolved (js "n-2")) (Resolved tt).

(** A stored text that is not JSON. *)
Definition notJSON : jsstring := js "{oops".

End More.
(** ** Blank drafts *)

Lemma trimStart_nil_iff (s : jsstring) :
  JsString.trimStart s = [] <-> forallb JsString.isWhiteSpace s = true.
Proof.
  induction s as [|c s IH]; simpl.
  - tauto.
  - destruct (JsString.isWhiteSpace c); simpl.
    + exact IH.
    + split; discriminate.
Qed.

Lemma trim_nil_iff (s : jsstring) :
  trim s = [] <-> forallb JsString.isWhiteSpace s = true.
Proof.
  unfold JsString.trim, JsString.trimEnd.
  split.
  - intros H.
    destruct (JsString.trimStart s) as [|c r] eqn:E.
    + now apply trimStart_nil_iff.
    + exfalso.
      assert (Hr : JsString.trimStart (rev (c :: r)) = []).
      { apply (f_equal (@rev N)) in H. rewrite rev_involutive in H. exact H. }
      apply trimStart_nil_iff in Hr.
      rewrite forallb_forall in Hr.
      assert (Hc : JsString.isWhiteSpace c = true).
      { apply Hr. apply in_rev. rewrite rev_involutive. now left. }
      simpl in E. destruct s as [|c' s']; [discriminate|].
      revert E. clear -Hc.
      induction (c' :: s') as [|x l IH]; simpl; [discriminate|].
      destruct (JsString.isWhiteSpace x) eqn:Ex; [exact IH|].
      intros [= -> _]. congruence.
  - intros H. apply trimStart_nil_iff in H. rewrite H. reflexivity.
Qed.

Lemma truthy_trim (s : jsstring) :
  trim s <> [] -> JsString.truthy (trim s) = true.
Proof. destruct (trim s); [congruence | reflexivity]. Qed.

(** ** Adding a task *)

Section AddTask.

Variable P : Platform.
Variable st : AppState.

Lemma inFuture_Some d :
  getTime (new_Date P) < getTime d -> inFuture P (Some d) = Some d.
Proof.
  intros H. unfold inFuture.
  destruct (Z.ltb_spec (getTime (new_Date P)) (getTime d)); [reflexivity|lia].
Qed.

Lemma inFuture_past d :
  getTime d <= getTime (new_Date P) -> inFuture P (Some d) = None.
Proof.
  intros H. unfold inFuture.
  destruct (Z.ltb_spec (getTime (new_Date P)) (getTime d)); [lia|reflexivity].
Qed.

(** C7. A draft that is empty once trimmed is refused: the user is shown
    the alert "Task text cannot be empty" and no cell of the state
    changes, the collection included. *)
Theorem addTask_blank_unchanged :
  trim (s_task st) = [] ->
  run (addTask P) st =
    (Resolved tt, st, [Alert_alert "Error" "Task text cannot be empty"]).
Proof.
  intros H. unfold run, addTask. rewrite H. reflexivity.
Qed.

(** C1 (as the code has it). When the draft is not blank, the reminder is
    strictly in the future and the scheduling call fails, the call is
    abandoned: no cell of the state changes (the task is NOT appended, the
    form is not reset), the error is logged and the alert
    "Failed to add task" is shown. *)
Theorem addTask_schedule_failure_aborts d e :
  trim (s_task st) <> [] ->
  s_reminderDate st = Some d ->
  getTime (new_Date P) < getTime d ->
  scheduleNotificationAsync P
    (reminderRequest (trim (s_task st)) (Date_now P) d) = Rejected e ->
  run (addTask P) st =
    (Resolved tt, st,
     [ScheduleRequested (reminderRequest (trim (s_task st)) (Date_now P) d);
      console_error "Error adding task:" e;
      Alert_alert "Error" "Failed to add task"]).
Proof.
  intros Hne Hd Hfut Hrej. unfold run, addTask.
  rewrite (truthy_trim _ Hne), Hd, (inFuture_Some _ Hfut). simpl.
  unfold try_catch, bind, schedule, bind, emit, await. simpl.
  rewrite Hrej. reflexivity.
Qed.

(** C10. When the draft is not blank and the reminder is present but not
    strictly later than the current time, nothing is asked of the
    notification service, and the task is appended with that reminder
    date kept and no notification id; the form is then reset. *)
Theorem addTask_past_reminder_kept d :
  trim (s_task st) <> [] ->
  s_reminderDate st = Some d ->
  getTime d <= getTime (new_Date P) ->
  run (addTask P) st =
    (Resolved tt,
     mkState [] (s_tasks st ++
                 [mkTask (Date_now P) (trim (s_task st)) false
                         (s_priority st) (trim (s_category st))
                         (Some d) None])
             Low [] None (s_filter st) (s_sortBy st) (s_editingTask st),
     []).
Proof.
  intros Hne Hd Hpast. unfold run, addTask.
  rewrite (truthy_trim _ Hne), Hd, (inFuture_past _ Hpast). reflexivity.
Qed.

End AddTask.

(** C7, on a draft of two spaces. *)
Lemma addTask_blank_unchanged_witness :
  run (addTask Samples.working) Samples.blankDraft =
    (Resolved tt, Samples.blankDraft,
     [Alert_alert "Error" "Task text cannot be empty"]).
Proof.
  apply (addTask_blank_unchanged Samples.working Samples.blankDraft).
  reflexivity.
Defined.

(** C1, amended, on "Call mom" with a reminder the platform refuses. *)
Lemma addTask_schedule_failure_aborts_witness :
  s_tasks (nextState (run (addTask Samples.failing) Samples.callMom)) = [].
Proof.
  rewrite (addTask_schedule_failure_aborts Samples.failing Samples.callMom
             (mkDate 5000) "scheduling failed"%string);
    [reflexivity | discriminate | reflexivity | reflexivity | reflexivity].
Defined.

(** C1 as the specification states it fails: the draft is not blank, the
    reminder is in the future, scheduling fails, and yet no task is
    appended. *)
Lemma addTask_schedule_failure_counterexample :
  trim (s_task Samples.callMom) <> [] /\
  inFuture Samples.failing (s_reminderDate Samples.callMom)
    = Some (mkDate 5000) /\
  (forall r, scheduleNotificationAsync Samples.failing r
             = Rejected "scheduling failed") /\
  ~ exists t, s_tasks (nextState (run (addTask Samples.failing) Samples.callMom))
              = s_tasks Samples.callMom ++ [t].
Proof.
  repeat split; try discriminate.
  intros [t Ht]. vm_compute in Ht. discriminate.
Qed.

(** C10, on "Call mom" with a reminder that is already past. *)
Lemma addTask_past_reminder_kept_witness :
  s_tasks (nextState (run (addTask Samples.working) Samples.callMomLate)) =
    [mkTask 1000 (js "Call mom") false Medium (js "Personal")
            (Some (mkDate 500)) None] /\
  trace (run (addTask Samples.working) Samples.callMomLate) = [].
Proof.
  rewrite (addTask_past_reminder_kept Samples.working Samples.callMomLate
             (mkDate 500));
    [split; reflexivity | discriminate | reflexivity | simpl; lia].
Defined.

(** ** Updating and deleting a task *)

Lemma truthyId_Some (n : jsstring) : n <> [] -> truthyId (Some n) = Some n.
Proof. destruct n; [congruence | reflexivity]. Qed.

Section UpdateTask.

Variable P : Platform.
Variable st : AppState.
Variable editingTask : Task.
Variable n : jsstring.

Hypothesis Hediting : s_editingTask st = Some editingTask.
Hypothesis Htext : trim (s_task st) <> [].
Hypothesis Hnid : notificationId editingTask = Some n.
Hypothesis Hn : n <> [].

(** The collection [updateTask] stores when it gets that far. *)
Let replaced (nid : option jsstring) : list Task :=
  List.map (fun t =>
    if id t =? id editingTask then
      mkTask (id t) (trim (s_task st)) (completed t) (s_priority st)
             (trim (s_category st)) (s_reminderDate st) nid
    else t) (s_tasks st).

(** C3 (as the code has it). For an update of the task being edited,
    with a draft that is not blank, when that task carries a non-empty
    notification id: cancellation of that id is the first thing asked,
    whatever the new reminder date is; if the cancellation fails the
    update is abandoned (no cell of the state changes, the error is
    logged and the alert "Failed to update task" is shown); if it
    succeeds and no new notification is due, the fields are replaced and
    the task ends up without a notification id. *)
Theorem updateTask_cancel_first_and_failure_aborts :
  (exists tr, trace (run (updateTask P) st) = CancelRequested n :: tr) /\
  (forall e, cancelScheduledNotificationAsync P n = Rejected e ->
     run (updateTask P) st =
       (Resolved tt, st,
        [CancelRequested n;
         console_error "Error updating task:" e;
         Alert_alert "Error" "Failed to update task"])) /\
  (cancelScheduledNotificationAsync P n = Resolved tt ->
   inFuture P (s_reminderDate st) = None ->
     s_tasks (nextState (run (updateTask P) st)) = replaced None /\
     trace (run (updateTask P) st) = [CancelRequested n]).
Proof.
  unfold run, updateTask.
  rewrite Hediting, (truthy_trim _ Htext), Hnid, (truthyId_Some _ Hn).
  simpl. unfold try_catch, bind at 1, cancel, bind at 1, emit, await. simpl.
  destruct (cancelScheduledNotificationAsync P n) as [[]|e0] eqn:Hc.
  - repeat split.
    + destruct (inFuture P (s_reminderDate st)) as [r|]; simpl.
      * unfold bind at 1. unfold bind at 1. unfold schedule, bind at 1. simpl.
        destruct (scheduleNotificationAsync P _); simpl; eauto.
      * eauto.
    + discriminate.
    + rewrite H0. reflexivity.
    + rewrite H0. reflexivity.
  - repeat split.
    + simpl. eauto.
    + intros e [= ->]. reflexivity.
    + discriminate.
    + discriminate.
Qed.

End UpdateTask.

(** C3, amended, on the edit of a task whose notification cannot be
    cancelled. *)
Lemma updateTask_cancel_first_and_failure_aborts_witness :
  run (updateTask Samples.failing) Samples.editing =
    (Resolved tt, Samples.editing,
     [CancelRequested (js "n-0");
      console_error "Error updating task:" "cancel failed";
      Alert_alert "Error" "Failed to update task"]).
Proof.
  apply (updateTask_cancel_first_and_failure_aborts Samples.failing
           Samples.editing Samples.scheduled (js "n-0"));
    [reflexivity | discriminate | reflexivity | discriminate | reflexivity].
Defined.

(** C3 as the specification states it fails: the edited task exists and
    has a notification id, its cancellation fails, and the task's fields
    are not replaced. *)
Lemma updateTask_cancel_failure_counterexample :
  s_editingTask Samples.editing = Some Samples.scheduled /\
  In Samples.scheduled (s_tasks Samples.editing) /\
  notificationId Samples.scheduled = Some (js "n-0") /\
  cancelScheduledNotificationAsync Samples.failing (js "n-0")
    = Rejected "cancel failed" /\
  s_tasks (nextState (run (updateTask Samples.failing) Samples.editing))
    = s_tasks Samples.editing /\
  ~ exists t,
      In t (s_tasks (nextState (run (updateTask Samples.failing) Samples.editing)))
      /\ text t = trim (s_task Samples.editing).
Proof.
  repeat split; try (now left).
  intros [t [Hin Ht]]. vm_compute in Hin, Ht.
  destruct Hin as [<-|[<-|[]]]; discriminate.
Qed.

Section DeleteTask.

Variable P : Platform.
Variable st : AppState.
Variable taskId : Z.
Variable taskToDelete : Task.
Variable n : jsstring.

Hypothesis Hfind :
  List.find (fun t => id t =? taskId) (s_tasks st) = Some taskToDelete.
Hypothesis Hnid : notificationId taskToDelete = Some n.
Hypothesis Hn : n <> [].

(** C2 (as the code has it). For a delete of a task that carries a
    non-empty notification id, cancellation of that id is asked before
    anything else. If the cancellation fails, the removal does not take
    place: the task is NOT removed and no cell of the state changes. If it
    succeeds, every task with that id is removed. *)
Theorem deleteTask_cancel_first_and_failure_keeps_task :
  (exists rest,
     trace (run (deleteTask P taskId) st) = CancelRequested n :: rest) /\
  (forall e, cancelScheduledNotificationAsync P n = Rejected e ->
     nextState (run (deleteTask P taskId) st) = st) /\
  (cancelScheduledNotificationAsync P n = Resolved tt ->
     run (deleteTask P taskId) st =
       (Resolved tt,
        setTasksTo (List.filter (fun t => negb (id t =? taskId)) (s_tasks st)) st,
        [CancelRequested n])).
Proof.
  unfold run, deleteTask. rewrite Hfind. simpl.
  rewrite Hnid, (truthyId_Some _ Hn).
  unfold bind at 1, cancel, bind at 1, emit, await. simpl.
  split; [|split].
  - destruct (cancelScheduledNotificationAsync P n) as [[]|e];
      eexists; reflexivity.
  - intros e ->. reflexivity.
  - intros ->. reflexivity.
Qed.

End DeleteTask.

(** C2, amended, on the deletion of a task whose notification cannot be
    cancelled: the cancellation was asked for and the collection is the
    one before the call. *)
Lemma deleteTask_cancel_first_and_failure_keeps_task_witness :
  (exists rest,
     trace (run (deleteTask Samples.failing 7) Samples.stored)
       = CancelRequested (js "n-0") :: rest) /\
  s_tasks (nextState (run (deleteTask Samples.failing 7) Samples.stored))
    = [Samples.scheduled; Samples.plain].
Proof.
  destruct (deleteTask_cancel_first_and_failure_keeps_task Samples.failing
              Samples.stored 7 Samples.scheduled (js "n-0")
              eq_refl eq_refl ltac:(discriminate)) as (Hfirst & Hfail & _).
  split; [exact Hfirst|].
  now rewrite (Hfail "cancel failed"%string eq_refl).
Defined.

(** C2 as the specification states it fails: the task has a notification
    id, its cancellation fails, nothing is logged and the task is still in
    the collection. *)
Lemma deleteTask_cancel_failure_counterexample :
  List.find (fun t => id t =? 7) (s_tasks Samples.stored)
    = Some Samples.scheduled /\
  notificationId Samples.scheduled = Some (js "n-0") /\
  cancelScheduledNotificationAsync Samples.failing (js "n-0")
    = Rejected "cancel failed" /\
  In Samples.scheduled
     (s_tasks (nextState (run (deleteTask Samples.failing 7) Samples.stored))) /\
  (forall m e, ~ In (console_error m e)
     (trace (run (deleteTask Samples.failing 7) Samples.stored))).
Proof.
  repeat split; try (now left).
  intros m e. vm_compute. intros [H|[]]. discriminate.
Qed.

(** ** The order [sort] produces *)

Section StableSort.

Variable compare : Task -> Task -> Z.
Variable key : Task -> Z.
Hypothesis compare_key : forall a b, compare a b <= 0 <-> key a <= key b.

Let le (a b : Task) : Prop := key a <= key b.

Lemma sort_insert_perm x l : Permutation (x :: l) (sort_insert compare x l).
Proof.
  induction l as [|y l IH]; simpl.
  - reflexivity.
  - destruct (compare x y <=? 0).
    + reflexivity.
    + rewrite perm_swap. now apply perm_skip.
Qed.

Lemma sorted_copy_perm l : Permutation l (sorted_copy compare l).
Proof.
  induction l as [|x l IH]; simpl.
  - constructor.
  - rewrite <- sort_insert_perm. now apply perm_skip.
Qed.

Lemma sort_insert_sorted x l :
  StronglySorted le l -> StronglySorted le (sort_insert compare x l).
Proof.
  induction 1 as [|y l Hs IH Hy]; simpl.
  - repeat constructor.
  - destruct (Z.leb_spec (compare x y) 0) as [Hc|Hc].
    + apply compare_key in Hc.
      constructor; [now constructor|].
      constructor; [exact Hc|].
      eapply List.Forall_impl; [|exact Hy].
      intros b Hb. unfold le in *. lia.
    + constructor; [exact IH|].
      assert (Hyx : le y x).
      { unfold le. destruct (Z.le_gt_cases (key x) (key y)) as [H|H]; [|lia].
        apply compare_key in H. lia. }
      rewrite <- (sort_insert_perm x l). now constructor.
Qed.

Lemma sorted_copy_sorted l : StronglySorted le (sorted_copy compare l).
Proof.
  induction l as [|x l IH]; simpl.
  - constructor.
  - now apply sort_insert_sorted.
Qed.

(** Stability: the elements of one key come out in the order they went
    in. *)
Lemma sort_insert_stable (p : Task -> bool) x l :
  (forall a b, p a = true -> p b = true -> key a = key b) ->
  List.filter p (sort_insert compare x l) = List.filter p (x :: l).
Proof.
  intros Hp. induction l as [|y l IH]; [reflexivity|].
  simpl sort_insert.
  destruct (Z.leb_spec (compare x y) 0) as [Hc|Hc]; [reflexivity|].
  assert (Hne : key x <> key y).
  { intros E. assert (H : key x <= key y) by lia.
    apply compare_key in H. lia. }
  change (List.filter p (y :: sort_insert compare x l))
    with (if p y then y :: List.filter p (sort_insert compare x l)
          else List.filter p (sort_insert compare x l)).
  rewrite IH. simpl.
  destruct (p x) eqn:Ex, (p y) eqn:Ey; try reflexivity.
  exfalso. apply Hne. now apply Hp.
Qed.

Lemma sorted_copy_stable (p : Task -> bool) l :
  (forall a b, p a = true -> p b = true -> key a = key b) ->
  List.filter p (sorted_copy compare l) = List.filter p l.
Proof.
  intros Hp. induction l as [|x l IH]; [reflexivity|].
  simpl sorted_copy. rewrite (sort_insert_stable p x _ Hp).
  simpl. now rewrite IH.
Qed.

(** A list sorted by key is determined by its sub-sequences of equal
    key. *)
Lemma sorted_by_key_unique l1 : forall l2,
  StronglySorted le l1 -> StronglySorted le l2 ->
  (forall k, List.filter (fun t => key t =? k) l1
             = List.filter (fun t => key t =? k) l2) ->
  l1 = l2.
Proof.
  induction l1 as [|a l1 IH]; intros l2 H1 H2 Hf.
  - destruct l2 as [|b l2]; [reflexivity|].
    specialize (Hf (key b)). simpl in Hf. rewrite Z.eqb_refl in Hf.
    discriminate.
  - destruct l2 as [|b l2].
    { specialize (Hf (key a)). simpl in Hf. rewrite Z.eqb_refl in Hf.
      discriminate. }
    apply StronglySorted_inv in H1 as [H1 Ha].
    apply StronglySorted_inv in H2 as [H2 Hb].
    rewrite List.Forall_forall in Ha, Hb.
    assert (Hba : key b <= key a).
    { pose proof (Hf (key a)) as E. simpl in E. rewrite Z.eqb_refl in E.
      assert (Hin : In a (List.filter (fun t => key t =? key a) (b :: l2))).
      { simpl. rewrite <- E. now left. }
      apply filter_In in Hin as [Hin _].
      destruct Hin as [->|Hin]; [lia|]. now apply Hb. }
    assert (Hab : key a <= key b).
    { pose proof (Hf (key b)) as E. simpl in E. rewrite Z.eqb_refl in E.
      assert (Hin : In b (List.filter (fun t => key t =? key b) (a :: l1))).
      { simpl. rewrite E. now left. }
      apply filter_In in Hin as [Hin _].
      destruct Hin as [->|Hin]; [lia|]. now apply Ha. }
    assert (Hk : key b = key a) by lia.
    pose proof (Hf (key a)) as E. simpl in E.
    rewrite Hk, Z.eqb_refl in E. injection E as -> E.
    f_equal. apply IH; [assumption..|].
    intros k. destruct (Z.eq_dec k (key b)) as [->|Hne]; [exact E|].
    specialize (Hf k). simpl in Hf.
    destruct (Z.eqb_spec (key b) k); [congruence|exact Hf].
Qed.

(** Hence [sorted_copy] is the only stable sort: any arrangement of [l]
    that is sorted and keeps the elements of equal key in their order is
    the one it computes. *)
Lemma sorted_copy_unique l l' :
  StronglySorted le l' ->
  (forall k, List.filter (fun t => key t =? k) l'
             = List.filter (fun t => key t =? k) l) ->
  l' = sorted_copy compare l.
Proof.
  intros Hs Hf.
  apply sorted_by_key_unique; [exact Hs|apply sorted_copy_sorted|].
  intros k. rewrite Hf. symmetry. apply sorted_copy_stable.
  intros a b Ha Hb. apply Z.eqb_eq in Ha, Hb. congruence.
Qed.

End StableSort.

Lemma StronglySorted_lookup {A} (R : A -> A -> Prop) (l : list A) i j a b :
  StronglySorted R l ->
  l !! i = Some a -> l !! j = Some b -> (i < j)%nat -> R a b.
Proof.
  intros Hs. revert i j. induction Hs as [|x l Hs IH Hx]; intros i j Hi Hj Hlt.
  - discriminate.
  - destruct j as [|j]; [lia|]. simpl in Hj.
    destruct i as [|i]; simpl in Hi.
    + injection Hi as <-. rewrite Forall_forall in Hx. apply Hx.
      eapply list_elem_of_lookup_2. exact Hj.
    + apply (IH i j); [assumption..|lia].
Qed.

Lemma compareFn_Date_key a b :
  compareFn SortDate a b <= 0 <->
  timeOrZero (reminderDate a) <= timeOrZero (reminderDate b).
Proof. simpl. lia. Qed.

Lemma compareFn_Priority_key a b :
  compareFn SortPriority a b <= 0 <->
  - priorityOrder (priority a) <= - priorityOrder (priority b).
Proof. simpl. lia. Qed.

Lemma timeOrZero_Some d : timeOrZero (Some d) = getTime d.
Proof.
  unfold timeOrZero. destruct (Z.eqb_spec (getTime d) 0); congruence.
Qed.

Lemma Priority_eqb_eq p q : Priority_eqb p q = true <-> p = q.
Proof. destruct p, q; simpl; split; congruence. Qed.

Lemma StronglySorted_weaken {A} (R R' : A -> A -> Prop) (l : list A) :
  (forall a b, R a b -> R' a b) -> StronglySorted R l -> StronglySorted R' l.
Proof.
  intros HR. induction 1 as [|x l Hs IH Hx]; constructor.
  - exact IH.
  - eapply List.Forall_impl; [|exact Hx]. intros b. apply HR.
Qed.

(** ** The projection [filteredTasks] *)

(** Sorting by date orders the filtered tasks by the time of their
    reminder, a task without a reminder counting as time 0 (the epoch). *)
Lemma project_Date_by_time (filter : Filter) (tasks : list Task) :
  StronglySorted
    (fun a b => timeOrZero (reminderDate a) <= timeOrZero (reminderDate b))
    (project filter SortDate tasks).
Proof.
  apply (sorted_copy_sorted (compareFn SortDate)
           (fun t => timeOrZero (reminderDate t)) compareFn_Date_key).
Qed.

Lemma project_In (filter : Filter) (sortBy : SortBy) (tasks : list Task) t :
  In t (project filter sortBy tasks) -> In t tasks.
Proof.
  intros H. unfold project in H.
  apply (Permutation_in t (Permutation_sym (sorted_copy_perm _ _))) in H.
  now apply filter_In in H.
Qed.

(** C4. On every collection the screen can hold (a stored reminder is
    after the epoch, the date picker offering no date before the current
    time) and for every filter, sorting by date yields a sequence whose
    reminder dates are non-decreasing and in which every task without a
    reminder comes before every task that has one. *)
Theorem project_Date_sorted_undated_first (filter : Filter)
  (tasks : list Task) :
  Forall afterEpoch tasks ->
  let result := project filter SortDate tasks in
  (forall i j a b da db,
     result !! i = Some a -> result !! j = Some b -> (i < j)%nat ->
     reminderDate a = Some da -> reminderDate b = Some db ->
     getTime da <= getTime db) /\
  (forall i j a b,
     result !! i = Some a -> result !! j = Some b ->
     reminderDate a = None -> reminderDate b <> None ->
     (i < j)%nat).
Proof.
  intros Hafter result.
  pose proof (project_Date_by_time filter tasks) as Hs. fold result in Hs.
  split.
  - intros i j a b da db Hi Hj Hlt Ha Hb.
    pose proof (StronglySorted_lookup _ _ _ _ _ _ Hs Hi Hj Hlt) as H.
    simpl in H. rewrite Ha, Hb, !timeOrZero_Some in H. exact H.
  - intros i j a b Hi Hj Ha Hb.
    destruct (reminderDate b) as [db|] eqn:Eb; [clear Hb|congruence].
    assert (Hpos : 0 < getTime db).
    { rewrite List.Forall_forall in Hafter.
      assert (Hin : In b tasks).
      { apply (project_In filter SortDate). apply list_elem_of_In.
        eapply list_elem_of_lookup_2. exact Hj. }
      specialize (Hafter b Hin). unfold afterEpoch in Hafter.
      now rewrite Eb in Hafter. }
    destruct (Nat.lt_trichotomy i j) as [Hlt|[Heq|Hgt]]; [exact Hlt| |].
    + subst j. rewrite Hi in Hj. injection Hj as ->. congruence.
    + pose proof (StronglySorted_lookup _ _ _ _ _ _ Hs Hj Hi Hgt) as H.
      simpl in H. rewrite Ha, Eb, timeOrZero_Some in H. simpl in H. lia.
Qed.

(** C4, on a collection where the tasks with a reminder are stored around
    the one without: the task without a reminder comes out first, the
    others by date. *)
Lemma project_Date_sorted_undated_first_witness :
  let result :=
    project All SortDate [Samples.soon; Samples.plain; Samples.scheduled] in
  result = [Samples.plain; Samples.scheduled; Samples.soon] /\
  (forall i j a b da db,
     result !! i = Some a -> result !! j = Some b -> (i < j)%nat ->
     reminderDate a = Some da -> reminderDate b = Some db ->
     getTime da <= getTime db) /\
  (forall i j a b,
     result !! i = Some a -> result !! j = Some b ->
     reminderDate a = None -> reminderDate b <> None ->
     (i < j)%nat).
Proof.
  split; [reflexivity|].
  apply (project_Date_sorted_undated_first All
           [Samples.soon; Samples.plain; Samples.scheduled]).
  repeat constructor; simpl; lia.
Defined.

(** The proviso is needed: the comparator counts an absent reminder as
    time 0, so a reminder before the epoch would be placed before a task
    without a reminder. *)
Lemma project_Date_before_epoch :
  project All SortDate [Samples.plain; Samples.old]
    = [Samples.old; Samples.plain] /\
  reminderDate Samples.old <> None /\
  reminderDate Samples.plain = None.
Proof. repeat split. discriminate. Qed.

(** C5. Sorting by priority yields a rearrangement of the filtered tasks
    that is non-increasing in priority weight, the weights being High = 3,
    Medium = 2 and Low = 1: a High task is never preceded by a Medium or
    a Low one, nor a Medium task by a Low one. The tasks of each priority
    are in the order they have in the filtered sequence. *)
Theorem project_Priority_sorted_stable (filter : Filter) (tasks : list Task) :
  let filtered := List.filter (filterFn filter) tasks in
  let result := project filter SortPriority tasks in
  (priorityOrder High = 3 /\ priorityOrder Medium = 2 /\
   priorityOrder Low = 1) /\
  Permutation filtered result /\
  StronglySorted
    (fun a b => priorityOrder (priority b) <= priorityOrder (priority a))
    result /\
  StronglySorted
    (fun a b =>
       match priority a, priority b with
       | Low, Medium | Low, High | Medium, High => False
       | _, _ => True
       end)
    result /\
  (forall p,
     List.filter (fun t => Priority_eqb (priority t) p) result =
     List.filter (fun t => Priority_eqb (priority t) p) filtered).
Proof.
  intros filtered result.
  assert (Hs : StronglySorted
    (fun a b => priorityOrder (priority b) <= priorityOrder (priority a))
    result).
  { pose proof (sorted_copy_sorted (compareFn SortPriority)
             (fun t => - priorityOrder (priority t)) compareFn_Priority_key
             filtered) as H.
    eapply StronglySorted_weaken; [|exact H]. simpl. intros a b Hab. lia. }
  split; [repeat split|]. split; [|split; [exact Hs|split]].
  - apply sorted_copy_perm.
  - eapply StronglySorted_weaken; [|exact Hs].
    intros a b. cbv beta.
    destruct (priority a), (priority b); simpl; intros H;
      first [exact I | lia].
  - intros p.
    apply (sorted_copy_stable (compareFn SortPriority)
             (fun t => - priorityOrder (priority t)) compareFn_Priority_key).
    intros a b Ha Hb.
    apply Priority_eqb_eq in Ha, Hb. congruence.
Qed.

(** C5, on a Low, a High and a Medium task stored in this order. *)
Lemma project_Priority_sorted_stable_witness :
  let result :=
    project All SortPriority
      [Samples.soon; Samples.plain; Samples.scheduled] in
  List.map priority result = [High; Medium; Low] /\
  List.filter (fun t => Priority_eqb (priority t) High) result
    = [Samples.plain].
Proof.
  split; [reflexivity|].
  destruct (project_Priority_sorted_stable All
              [Samples.soon; Samples.plain; Samples.scheduled])
    as (_ & _ & _ & _ & H).
  exact (H High).
Defined.

(** C9. [filteredTasks] builds its result in a newly allocated array: the
    array holding the stored collection has the same contents afterwards
    (same tasks, same order), and so has every other array of the heap. *)
Theorem filteredTasks_leaves_collection (h : Heap) (tasks : loc)
  (ts : list Task) (filter : Filter) (sortBy : SortBy) :
  h !! tasks = Some ts ->
  exists r h',
    filteredTasks filter sortBy tasks h = Some (r, h') /\
    h !! r = None /\
    h' !! r = Some (project filter sortBy ts) /\
    h' !! tasks = Some ts /\
    (forall l, l <> r -> h' !! l = h !! l).
Proof.
  intros Hts.
  assert (Hfresh : h !! fresh (dom h) = None).
  { apply not_elem_of_dom. apply is_fresh. }
  exists (fresh (dom h)),
         (<[fresh (dom h) := project filter sortBy ts]> h).
  unfold filteredTasks, Array_filter, Array_sort, alloc.
  rewrite Hts. simpl. rewrite lookup_insert_eq, insert_insert_eq.
  split; [reflexivity|]. split; [exact Hfresh|].
  split; [apply lookup_insert_eq|]. split.
  - rewrite lookup_insert_ne; [exact Hts|]. congruence.
  - intros l Hl. now rewrite lookup_insert_ne.
Qed.

(** C9, on a heap whose array 1 is the stored collection. *)
Lemma filteredTasks_leaves_collection_witness :
  exists r h',
    filteredTasks Pending SortPriority 1%positive Samples.heap1 = Some (r, h') /\
    h' !! 1%positive = Some [Samples.scheduled; Samples.plain; Samples.soon].
Proof.
  destruct (filteredTasks_leaves_collection Samples.heap1 1%positive
              [Samples.scheduled; Samples.plain; Samples.soon]
              Pending SortPriority) as (r & h' & H1 & _ & _ & H4 & _);
    [reflexivity|].
  exists r, h'. split; assumption.
Defined.

(** ** Identifiers *)

(** An add call leaves the collection as it is or appends one task whose
    id is the clock reading of the call. *)
Lemma addTask_tasks (P : Platform) (st : AppState) :
  s_tasks (nextState (run (addTask P) st)) = s_tasks st \/
  exists t, id t = Date_now P /\
            s_tasks (nextState (run (addTask P) st)) = s_tasks st ++ [t].
Proof.
  unfold run, addTask.
  destruct (JsString.truthy (trim (s_task st))); simpl; [|now left].
  destruct (inFuture P (s_reminderDate st)) as [r|]; simpl.
  - unfold try_catch, bind at 1, bind at 1, schedule, bind at 1. simpl.
    destruct (scheduleNotificationAsync P _) as [n|e]; simpl.
    + right. eexists. split; [|reflexivity]. reflexivity.
    + now left.
  - right. eexists. split; [|reflexivity]. reflexivity.
Qed.

Lemma add_tasks (c : AddCall) (s : AppState) :
  s_tasks (add c s) = s_tasks s \/
  exists t, id t = Date_now (platform c) /\ s_tasks (add c s) = s_tasks s ++ [t].
Proof. apply (addTask_tasks (platform c) (fillForm c s)). Qed.

(** C8 (as the code has it). The id of a created task is the clock reading
    [Date.now()] of its add call. Along a sequence of add calls the ids in
    the collection are pairwise distinct provided the clock readings of the
    calls are pairwise distinct and differ from the ids already stored. *)
Theorem session_ids_distinct (calls : list AddCall) (s : AppState) :
  NoDup (List.map id (s_tasks s) ++
         List.map (fun c => Date_now (platform c)) calls) ->
  NoDup (List.map id (s_tasks (session calls s))).
Proof.
  revert s. induction calls as [|c calls IH]; intros s Hnd; simpl in *.
  - now rewrite app_nil_r in Hnd.
  - apply IH.
    destruct (add_tasks c s) as [->|(t & Hid & ->)].
    + apply NoDup_app in Hnd as (H1 & H2 & H3).
      apply NoDup_cons in H3 as [_ H3].
      apply NoDup_app. repeat split; [exact H1| |exact H3].
      intros x Hx Hin. apply (H2 x Hx). now apply list_elem_of_further.
    + rewrite List.map_app, <- app_assoc. simpl. now rewrite Hid.
Qed.

(** C8, amended, on two adds one millisecond apart. *)
Lemma session_ids_distinct_witness :
  NoDup (List.map id
           (s_tasks (session [Samples.buyMilk; Samples.payRentLater] emptyState))).
Proof.
  apply (session_ids_distinct [Samples.buyMilk; Samples.payRentLater] emptyState).
  simpl. apply NoDup_cons. split.
  - intros H. apply list_elem_of_In in H. simpl in H. lia.
  - apply NoDup_singleton.
Defined.

(** C8 as the specification states it fails: two adds within the same
    millisecond create two tasks with the same id. *)
Lemma session_ids_counterexample :
  List.map id (s_tasks (session [Samples.buyMilk; Samples.payRent] emptyState))
    = [1000; 1000] /\
  ~ NoDup (List.map id
             (s_tasks (session [Samples.buyMilk; Samples.payRent] emptyState))).
Proof.
  split; [reflexivity|].
  intros H. vm_compute in H. apply NoDup_cons in H as [H _].
  apply H. left.
Qed.

(** ** Dates as text *)

(** Replaces the code units written as characters by their numbers. *)
Ltac norm_chr :=
  repeat match goal with
  | |- context [JsString.chr ?c] =>
      let v := eval vm_compute in (JsString.chr c) in
      change (JsString.chr c) with v
  end.

Lemma digit_isDigit d : 0 <= d <= 9 -> isDigit (digit d) = true.
Proof.
  intros H. unfold isDigit, digit.
  apply andb_true_iff. split; apply N.leb_le; lia.
Qed.

Lemma digitValue_digit d : 0 <= d <= 9 -> digitValue (digit d) = d.
Proof. intros H. unfold digitValue, digit. lia. Qed.

Lemma mod10_bounds n : 0 <= n mod 10 <= 9.
Proof. pose proof (Z.mod_pos_bound n 10). lia. Qed.

Lemma readDigits_pad w : forall n k rest a,
  0 <= n < 10 ^ Z.of_nat w ->
  readDigits (w + k) (pad w n ++ rest) a
  = readDigits k rest (a * 10 ^ Z.of_nat w + n).
Proof.
  induction w as [|w IH]; intros n k rest a Hn.
  - simpl in *. f_equal. lia.
  - rewrite Nat2Z.inj_succ, Z.pow_succ_r in * by lia.
    simpl pad. rewrite <- app_assoc. simpl app.
    replace (S w + k)%nat with (w + S k)%nat by lia.
    rewrite IH by (Z.div_mod_to_equations; lia).
    simpl readDigits.
    rewrite digit_isDigit, digitValue_digit by apply mod10_bounds.
    f_equal. Z.div_mod_to_equations. lia.
Qed.

Lemma readDigits_pad_all w n rest :
  0 <= n < 10 ^ Z.of_nat w ->
  readDigits w (pad w n ++ rest) 0 = Some (n, rest).
Proof.
  intros Hn. pose proof (readDigits_pad w n 0 rest 0 Hn) as H.
  rewrite Nat.add_0_r in H. rewrite H. simpl. f_equal.
Qed.

Lemma pad_head w n :
  exists c r, pad (S w) n = c :: r /\ isDigit c = true.
Proof.
  revert n. induction w as [|w IH]; intros n.
  - exists (digit (n mod 10)), []. split; [reflexivity|].
    apply digit_isDigit, mod10_bounds.
  - destruct (IH (n / 10)) as (c & r & Hc & Hd).
    exists c, (r ++ [digit (n mod 10)]). split; [|exact Hd].
    change (pad (S (S w)) n) with (pad (S w) (n / 10) ++ [digit (n mod 10)]).
    now rewrite Hc.
Qed.

Arguments pad : simpl never.
Arguments readDigits : simpl never.

Lemma isDigit_not_sign c :
  isDigit c = true -> (c =? chr "+")%N = false /\ (c =? chr "-")%N = false.
Proof.
  unfold isDigit. intros H. apply andb_true_iff in H as [H1 H2].
  apply N.leb_le in H1, H2.
  split; apply N.eqb_neq; simpl; lia.
Qed.

Lemma readYear_yearString y rest :
  - 999999 <= y <= 999999 ->
  readYear (yearString y ++ rest) = Some (y, rest).
Proof.
  intros Hy. unfold yearString.
  destruct (Z.leb_spec 0 y) as [H0|H0]; simpl andb.
  2: { destruct (Z.ltb_spec y 0); [|lia]. cbn.
       rewrite readDigits_pad_all by (simpl; lia).
       destruct (Z.eqb_spec (Z.abs y) 0); [lia|].
       do 2 f_equal. lia. }
  destruct (Z.leb_spec y 9999) as [H1|H1].
  - destruct (pad_head 3 y) as (c & r & Hc & Hd).
    pose proof (readDigits_pad_all 4 y rest) as Hr.
    rewrite Hc in *. simpl app in *. unfold readYear.
    destruct (isDigit_not_sign c Hd) as [-> ->].
    apply Hr. simpl. lia.
  - destruct (Z.ltb_spec y 0); [lia|]. cbn.
    rewrite readDigits_pad_all by (simpl; lia).
    do 2 f_equal. lia.
Qed.

(** *** The calendar *)

Lemma era_bounds doe :
  0 <= doe < 146097 ->
  let yoe := (doe - doe / 1460 + doe / 36524 - doe / 146096) / 365 in
  let doy := doe - (365 * yoe + yoe / 4 - yoe / 100) in
  let mp := (5 * doy + 2) / 153 in
  let d := doy - (153 * mp + 2) / 5 + 1 in
  0 <= yoe <= 399 /\ 0 <= doy <= 365 /\ 0 <= mp <= 11 /\ 1 <= d <= 31.
Proof.
  intros H yoe doy mp d. subst yoe doy mp d.
  Z.div_mod_to_equations. lia.
Qed.

(** [daysFromCivil] inverts [civilFromDays], whose month and day are in
    range. *)
Lemma civilFromDays_spec day :
  exists y m d,
    civilFromDays day = (y, m, d) /\ daysFromCivil y m d = day /\
    1 <= m <= 12 /\ 1 <= d <= 31 /\
    (- 100000000 <= day <= 100000000 -> - 999999 <= y <= 999999).
Proof.
  unfold civilFromDays.
  set (z := day + 719468).
  assert (Hdoe : 0 <= z mod 146097 < 146097) by (apply Z.mod_pos_bound; lia).
  pose proof (era_bounds _ Hdoe) as Hb. cbv zeta in Hb.
  set (era := z / 146097) in *.
  assert (Hz : z = 146097 * era + z mod 146097) by (apply Z.div_mod; lia).
  set (doe := z mod 146097) in *.
  set (yoe := (doe - doe / 1460 + doe / 36524 - doe / 146096) / 365) in *.
  set (doy := doe - (365 * yoe + yoe / 4 - yoe / 100)) in *.
  set (mp := (5 * doy + 2) / 153) in *.
  set (d := doy - (153 * mp + 2) / 5 + 1) in *.
  destruct Hb as (Hyoe & Hdoy & Hmp & Hd).
  eexists _, _, _. split; [reflexivity|].
  assert (Hm : 1 <= (if mp <? 10 then mp + 3 else mp - 9) <= 12).
  { destruct (Z.ltb_spec mp 10); lia. }
  split; [|split; [exact Hm|split; [exact Hd|]]].
  - unfold daysFromCivil.
    set (m := if mp <? 10 then mp + 3 else mp - 9) in *.
    assert (Hmp' : (if 2 <? m then m - 3 else m + 9) = mp).
    { subst m. destruct (Z.ltb_spec mp 10).
      - destruct (Z.ltb_spec 2 (mp + 3)); lia.
      - destruct (Z.ltb_spec 2 (mp - 9)); lia. }
    rewrite Hmp'.
    replace (yoe + era * 400 + (if m <=? 2 then 1 else 0)
             - (if m <=? 2 then 1 else 0)) with (yoe + era * 400) by lia.
    rewrite Z.div_add by lia. rewrite Z.mod_add by lia.
    rewrite Z.div_small, Z.mod_small by lia.
    fold doy. subst d. subst doy. lia.
  - intros Hday.
    assert (- 680 <= era <= 690) by (subst z; lia).
    destruct (_ <=? 2); lia.
Qed.

(** *** [new Date(d.toISOString())] is [d] *)

Lemma Date_parse_toISOString (d : Date) :
  - maxTime <= getTime d <= maxTime ->
  Date_parse (Date_toISOString d) = Some d.
Proof.
  destruct d as [t]. simpl getTime. unfold maxTime. intros Ht.
  unfold Date_toISOString. simpl getTime.
  destruct (civilFromDays_spec (t / msPerDay))
    as (y & m & dd & Hc & Hinv & Hm & Hd & Hy).
  rewrite Hc.
  assert (Hday : - 100000000 <= t / msPerDay <= 100000000).
  { unfold msPerDay. Z.div_mod_to_equations. lia. }
  specialize (Hy Hday).
  assert (Hms : 0 <= t mod msPerDay < 86400000).
  { apply Z.mod_pos_bound. reflexivity. }
  set (ms := t mod msPerDay) in *.
  unfold Date_parse.
  rewrite readYear_yearString by exact Hy. norm_chr. cbn.
  rewrite readDigits_pad_all by (simpl; lia). cbn.
  rewrite readDigits_pad_all by (simpl; lia). cbn.
  rewrite readDigits_pad_all
    by (simpl; Z.div_mod_to_equations; lia). cbn.
  rewrite readDigits_pad_all
    by (simpl; Z.div_mod_to_equations; lia). cbn.
  rewrite readDigits_pad_all
    by (simpl; Z.div_mod_to_equations; lia). cbn.
  rewrite readDigits_pad_all
    by (simpl; Z.div_mod_to_equations; lia). cbn.
  rewrite Hinv, Hc.
  rewrite bool_decide_eq_true_2 by reflexivity.
  assert (Ht' : t / msPerDay * msPerDay + ms / 3600000 * 3600000
                + ms / 60000 mod 60 * 60000 + ms / 1000 mod 60 * 1000
                + ms mod 1000 = t).
  { subst ms. unfold msPerDay. Z.div_mod_to_equations. lia. }
  rewrite Ht'.
  rewrite !(proj2 (Z.leb_le _ _))
    by (unfold maxTime; Z.div_mod_to_equations; lia).
  reflexivity.
Qed.

Lemma Date_toISOString_truthy (d : Date) :
  JsString.truthy (Date_toISOString d) = true.
Proof.
  unfold Date_toISOString.
  destruct (civilFromDays _) as [[y m] dd].
  unfold yearString.
  destruct ((0 <=? y) && (y <=? 9999)); [|reflexivity].
  destruct (pad_head 3 y) as (c & r & -> & _). reflexivity.
Qed.

(** ** JSON text: parsing what was serialized *)

(** *** Numbers *)

Lemma digitsValue_app ds1 ds2 a :
  digitsValue (ds1 ++ ds2) a = digitsValue ds2 (digitsValue ds1 a).
Proof. unfold digitsValue. apply fold_left_app. Qed.

Lemma digitsOf_spec f : forall n acc,
  0 <= n < 2 ^ Z.of_nat (S f) ->
  exists c ds,
    digitsOf (S f) n acc = c :: ds ++ acc /\
    isDigit c = true /\ forallb isDigit ds = true /\
    digitsValue (c :: ds) 0 = n /\
    (0 < n -> c <> 48%N).
Proof.
  induction f as [|f IH]; intros n acc Hn.
  - assert (Hq : n / 10 = 0) by (simpl in Hn; Z.div_mod_to_equations; lia).
    simpl. rewrite Hq. simpl.
    exists (digit (n mod 10)), []. repeat split.
    + apply digit_isDigit, mod10_bounds.
    + unfold digitsValue. simpl. rewrite digitValue_digit by apply mod10_bounds.
      Z.div_mod_to_equations. lia.
    + intros Hpos. unfold digit. Z.div_mod_to_equations. lia.
  - change (digitsOf (S (S f)) n acc)
      with (if n / 10 =? 0 then digit (n mod 10) :: acc
            else digitsOf (S f) (n / 10) (digit (n mod 10) :: acc)).
    destruct (Z.eqb_spec (n / 10) 0) as [Hq|Hq].
    + exists (digit (n mod 10)), []. repeat split.
      * apply digit_isDigit, mod10_bounds.
      * unfold digitsValue. simpl.
        rewrite digitValue_digit by apply mod10_bounds.
        Z.div_mod_to_equations. lia.
      * intros Hpos. unfold digit. Z.div_mod_to_equations. lia.
    + assert (Hn' : 0 <= n / 10 < 2 ^ Z.of_nat (S f)).
      { rewrite !Nat2Z.inj_succ, !Z.pow_succ_r in * by lia.
        Z.div_mod_to_equations. lia. }
      destruct (IH (n / 10) (digit (n mod 10) :: acc) Hn')
        as (c & ds & Heq & Hc & Hds & Hv & Hnz).
      exists c, (ds ++ [digit (n mod 10)]). repeat split.
      * rewrite Heq. now rewrite <- app_assoc.
      * exact Hc.
      * rewrite forallb_app, Hds. simpl.
        now rewrite digit_isDigit by apply mod10_bounds.
      * change (c :: ds ++ [digit (n mod 10)])
          with ((c :: ds) ++ [digit (n mod 10)]).
        rewrite digitsValue_app, Hv. unfold digitsValue. simpl.
        rewrite digitValue_digit by apply mod10_bounds.
        Z.div_mod_to_equations. lia.
      * intros _. apply Hnz. Z.div_mod_to_equations. lia.
Qed.

Lemma log2_fuel n : 0 <= n -> 0 <= n < 2 ^ Z.of_nat (S (Z.to_nat (Z.log2 n))).
Proof.
  intros Hn. split; [exact Hn|].
  rewrite Nat2Z.inj_succ, Z2Nat.id by apply Z.log2_nonneg.
  destruct (Z.eq_dec n 0) as [->|Hne]; [reflexivity|].
  apply Z.log2_spec. lia.
Qed.

Lemma delimited_not_digit c rest :
  delimited (c :: rest) = true ->
  isDigit c = false /\
  ((c =? chr ".") || (c =? chr "e") || (c =? chr "E"))%N = false.
Proof.
  unfold delimited, isDigit. norm_chr. intros H.
  repeat (apply orb_true_iff in H as [H|H]);
    apply N.eqb_eq in H; subst c; split; reflexivity.
Qed.

Lemma parseDigits_app ds : forall rest a,
  forallb isDigit ds = true -> delimited rest = true ->
  parseDigits (ds ++ rest) a = (digitsValue ds a, rest).
Proof.
  induction ds as [|c ds IH]; intros rest a Hds Hrest.
  - destruct rest as [|c rest]; [reflexivity|].
    cbn [app parseDigits].
    destruct (delimited_not_digit c rest Hrest) as [-> _]. reflexivity.
  - cbn [forallb] in Hds. apply andb_true_iff in Hds as [Hc Hds].
    cbn [app parseDigits]. rewrite Hc.
    now apply IH.
Qed.

Lemma parseNumber_digits c ds rest (negative : bool) :
  isDigit c = true -> forallb isDigit ds = true ->
  (ds = [] \/ c <> 48%N) ->
  delimited rest = true ->
  parseInt (c :: ds ++ rest) = Some (digitsValue (c :: ds) 0, rest).
Proof.
  intros Hc Hds Hz Hrest. unfold parseInt.
  destruct (N.eqb_spec c 48) as [->|Hne].
  - destruct Hz as [->|Hz]; [reflexivity|congruence].
  - rewrite Hc, parseDigits_app by assumption. reflexivity.
Qed.

Lemma parseInt_digitsOf n rest :
  0 <= n -> delimited rest = true ->
  exists c r,
    digitsOf (S (Z.to_nat (Z.log2 n))) n [] = c :: r /\ isDigit c = true /\
    parseInt ((c :: r) ++ rest) = Some (n, rest).
Proof.
  intros Hn Hrest.
  destruct (digitsOf_spec _ n [] (log2_fuel n Hn))
    as (c & ds & Heq & Hc & Hds & Hv & Hnz).
  rewrite app_nil_r in Heq.
  exists c, ds. repeat split; [exact Heq|exact Hc|].
  simpl app.
  assert (Hz : ds = [] \/ c <> 48%N).
  { destruct (Z.eq_dec n 0) as [->|Hne]; [|right; apply Hnz; lia].
    left. destruct ds as [|d ds]; [reflexivity|].
    exfalso. revert Heq. vm_compute. discriminate. }
  pose proof (parseNumber_digits c ds rest false Hc Hds Hz Hrest) as Hp.
  now rewrite Hv in Hp.
Qed.

Lemma parseFraction_delimited rest :
  delimited rest = true -> parseFraction rest = Some (false, rest).
Proof.
  intros Hrest. destruct rest as [|c rest]; [reflexivity|].
  destruct (delimited_not_digit c rest Hrest) as [_ H].
  apply orb_false_iff in H as [H _]. apply orb_false_iff in H as [H _].
  unfold parseFraction. now rewrite H.
Qed.

Lemma parseExponent_delimited rest :
  delimited rest = true -> parseExponent rest = Some (false, rest).
Proof.
  intros Hrest. destruct rest as [|c rest]; [reflexivity|].
  destruct (delimited_not_digit c rest Hrest) as [_ H].
  apply orb_false_iff in H as [H H2]. apply orb_false_iff in H as [_ H1].
  unfold parseExponent. now rewrite H1, H2.
Qed.

Lemma parseNumber_toString n rest :
  Z.abs n <= MAX_SAFE_INTEGER -> delimited rest = true ->
  parseNumber (Number_toString n ++ rest) = Some (Exact (JNumber n), rest).
Proof.
  intros Hsafe Hrest. unfold MAX_SAFE_INTEGER in Hsafe.
  unfold Number_toString.
  destruct (Z.ltb_spec n 0) as [Hneg|Hpos].
  - destruct (parseInt_digitsOf (- n) rest) as (c & r & -> & _ & Hp);
      [lia|exact Hrest|].
    unfold parseNumber.
    change ((chr "-" :: c :: r) ++ rest) with (chr "-" :: (c :: r) ++ rest).
    cbv beta iota.
    replace (chr "-" =? chr "-")%N with true by reflexivity.
    cbv beta iota.
    rewrite Hp, (parseFraction_delimited _ Hrest),
      (parseExponent_delimited _ Hrest).
    replace (- n =? 0) with false by (symmetry; apply Z.eqb_neq; lia).
    replace (MAX_SAFE_INTEGER <? - n) with false
      by (symmetry; apply Z.ltb_ge; unfold MAX_SAFE_INTEGER; lia).
    cbn [orb andb]. now rewrite Z.opp_involutive.
  - destruct (parseInt_digitsOf n rest) as (c & r & -> & Hc & Hp);
      [lia|exact Hrest|].
    unfold parseNumber.
    change ((c :: r) ++ rest) with (c :: r ++ rest) in *.
    cbv beta iota.
    destruct (N.eqb_spec c (chr "-")) as [->|_]; [discriminate|].
    cbv beta iota.
    rewrite Hp, (parseFraction_delimited _ Hrest),
      (parseExponent_delimited _ Hrest).
    replace (MAX_SAFE_INTEGER <? n) with false
      by (symmetry; apply Z.ltb_ge; unfold MAX_SAFE_INTEGER; lia).
    reflexivity.
Qed.

(** *** Strings *)

Lemma hexValue_hexDigit x : (x < 16)%N -> hexValue (hexDigit x) = Some x.
Proof.
  intros Hx. unfold hexDigit, hexValue, isDigit.
  destruct (N.ltb_spec x 10) as [H|H].
  - replace ((48 <=? 48 + x) && (48 + x <=? 57))%N with true.
    + f_equal. lia.
    + symmetry. apply andb_true_iff. split; apply N.leb_le; lia.
  - replace ((48 <=? 87 + x) && (87 + x <=? 57))%N with false.
    + replace ((97 <=? 87 + x) && (87 + x <=? 102))%N with true.
      * f_equal. lia.
      * symmetry. apply andb_true_iff. split; apply N.leb_le; lia.
    + symmetry. apply andb_false_iff. right. apply N.leb_gt. lia.
Qed.

Lemma hex_recompose c :
  (c < 65536)%N ->
  (c / 4096 mod 16 * 4096 + c / 256 mod 16 * 256 + c / 16 mod 16 * 16
   + c mod 16 = c)%N.
Proof.
  intros Hc.
  assert (E1 : (c / 256 = c / 16 / 16)%N)
    by (rewrite N.Div0.div_div; reflexivity).
  assert (E2 : (c / 4096 = c / 16 / 16 / 16)%N)
    by (rewrite !N.Div0.div_div; reflexivity).
  rewrite E2, E1. clear E1 E2.
  set (q1 := (c / 16)%N) in *.
  set (q2 := (q1 / 16)%N) in *.
  set (q3 := (q2 / 16)%N) in *.
  assert (H0 : c = (16 * q1 + c mod 16)%N) by (apply N.div_mod; discriminate).
  assert (H1 : q1 = (16 * q2 + q1 mod 16)%N) by (apply N.div_mod; discriminate).
  assert (H2 : q2 = (16 * q3 + q2 mod 16)%N) by (apply N.div_mod; discriminate).
  assert (B0 : (c mod 16 < 16)%N) by (apply N.mod_lt; discriminate).
  assert (B1 : (q1 mod 16 < 16)%N) by (apply N.mod_lt; discriminate).
  assert (B2 : (q2 mod 16 < 16)%N) by (apply N.mod_lt; discriminate).
  set (r0 := (c mod 16)%N) in *.
  set (r1 := (q1 mod 16)%N) in *.
  set (r2 := (q2 mod 16)%N) in *.
  clearbody r0 r1 r2 q3 q2 q1.
  rewrite (N.mod_small q3 16) by lia.
  lia.
Qed.

Lemma parseString_literal c tail str rest :
  c <> 34%N -> c <> 92%N -> (32 <= c)%N ->
  parseString tail = Some (str, rest) ->
  parseString (c :: tail) = Some (c :: str, rest).
Proof.
  intros H34 H92 H32 Htail. cbn [parseString]. norm_chr.
  destruct (N.eqb_spec c 34); [congruence|].
  destruct (N.eqb_spec c 92); [congruence|].
  destruct (N.ltb_spec c 32); [lia|].
  now rewrite Htail.
Qed.

Lemma parseString_unicodeEscape c tail str rest :
  (c < 65536)%N ->
  parseString tail = Some (str, rest) ->
  parseString (unicodeEscape c ++ tail) = Some (c :: str, rest).
Proof.
  intros Hc Htail. unfold unicodeEscape. norm_chr.
  cbn [app parseString].
  replace (92 =? 34)%N with false by reflexivity.
  replace (92 =? 92)%N with true by reflexivity.
  replace (117 =? 117)%N with true by reflexivity.
  rewrite !hexValue_hexDigit by (apply N.mod_lt; discriminate).
  rewrite Htail, hex_recompose by exact Hc. reflexivity.
Qed.

Lemma parseString_quoteUnit c tail str rest :
  parseString tail = Some (str, rest) ->
  parseString (quoteUnit c ++ tail) = Some (c :: str, rest).
Proof.
  intros Htail. unfold quoteUnit.
  repeat match goal with
  | |- context [(c =? ?k)%N] =>
      destruct (N.eqb_spec c k) as [->|?];
        [norm_chr; cbn [app parseString];
         repeat match goal with
         | |- context [(?a =? ?b)%N] =>
             let v := eval vm_compute in (a =? b)%N in
             change (a =? b)%N with v
         end;
         cbv beta iota; unfold simpleEscape; norm_chr;
         repeat match goal with
         | |- context [(?a =? ?b)%N] =>
             let v := eval vm_compute in (a =? b)%N in
             change (a =? b)%N with v
         end;
         cbv beta iota; rewrite Htail; reflexivity|]
  end.
  destruct ((c <? 32)%N || isHighSurrogate c || isLowSurrogate c) eqn:E.
  - apply parseString_unicodeEscape; [|exact Htail].
    unfold isHighSurrogate, isLowSurrogate in E.
    repeat (apply orb_true_iff in E as [E|E]).
    + apply N.ltb_lt in E. lia.
    + apply andb_true_iff in E as [_ E]. apply N.leb_le in E. lia.
    + apply andb_true_iff in E as [_ E]. apply N.leb_le in E. lia.
  - apply orb_false_iff in E as [E _]. apply orb_false_iff in E as [E _].
    apply N.ltb_ge in E.
    apply parseString_literal; assumption.
Qed.

Lemma surrogate_literal c :
  isHighSurrogate c = true \/ isLowSurrogate c = true ->
  c <> 34%N /\ c <> 92%N /\ (32 <= c)%N.
Proof.
  unfold isHighSurrogate, isLowSurrogate.
  intros [H|H]; apply andb_true_iff in H as [H _]; apply N.leb_le in H; lia.
Qed.

Lemma parseString_quoteUnits n : forall s rest,
  (length s <= n)%nat ->
  parseString (quoteUnits s ++ 34%N :: rest) = Some (s, rest).
Proof.
  induction n as [|n IH]; intros s rest Hlen.
  - destruct s; [reflexivity|simpl in Hlen; lia].
  - destruct s as [|c [|d s]].
    + reflexivity.
    + cbn [quoteUnits]. now apply parseString_quoteUnit.
    + change (quoteUnits (c :: d :: s))
        with (if isHighSurrogate c && isLowSurrogate d
              then c :: d :: quoteUnits s
              else quoteUnit c ++ quoteUnits (d :: s)).
      destruct (isHighSurrogate c && isLowSurrogate d) eqn:E.
      * apply andb_true_iff in E as [Hc Hd].
        destruct (surrogate_literal c (or_introl Hc)) as (? & ? & ?).
        destruct (surrogate_literal d (or_intror Hd)) as (? & ? & ?).
        cbn [app].
        apply parseString_literal; [assumption..|].
        apply parseString_literal; [assumption..|].
        apply IH. simpl in Hlen. lia.
      * rewrite <- app_assoc. apply parseString_quoteUnit.
        apply IH. simpl in *. lia.
Qed.

Lemma parseString_Quote s rest :
  exists r, QuoteJSONString s = 34%N :: r /\
            parseString (r ++ rest) = Some (s, rest).
Proof.
  exists (quoteUnits s ++ [34%N]). split; [reflexivity|].
  rewrite <- app_assoc. apply (parseString_quoteUnits (length s)). lia.
Qed.

(** *** Values *)

Lemma startsValue_facts c :
  startsValue c = true ->
  isJSONWhiteSpace c = false /\
  (c =? chr "]")%N = false /\ (c =? chr "}")%N = false /\
  (c =? chr ",")%N = false.
Proof.
  unfold startsValue, isJSONWhiteSpace, isDigit. norm_chr. intros H.
  repeat (apply orb_true_iff in H as [H|H]);
    try (apply N.eqb_eq in H; subst c; repeat split; reflexivity).
  apply andb_true_iff in H as [H1 H2]. apply N.leb_le in H1, H2.
  repeat split;
    repeat (apply orb_false_iff; split); apply N.eqb_neq; lia.
Qed.

Lemma skipWhiteSpace_start c r :
  startsValue c = true -> skipWhiteSpace (c :: r) = c :: r.
Proof.
  intros H. destruct (startsValue_facts c H) as (Hws & _).
  cbn [skipWhiteSpace]. now rewrite Hws.
Qed.

Lemma Number_toString_head n :
  exists c r, Number_toString n = c :: r /\
              (c = chr "-" \/ isDigit c = true).
Proof.
  unfold Number_toString. destruct (Z.ltb_spec n 0) as [Hn|Hn].
  - eexists _, _. split; [reflexivity|now left].
  - destruct (digitsOf_spec (Z.to_nat (Z.log2 n)) n [] (log2_fuel n Hn))
      as (c & ds & -> & Hc & _).
    eexists _, _. split; [reflexivity|now right].
Qed.

Lemma serialize_head v :
  exists c r, JSON_serialize v = c :: r /\ startsValue c = true.
Proof.
  destruct v as [|[]|n|s|l|l]; try (eexists _, _; split; reflexivity).
  destruct (Number_toString_head n) as (c & r & Heq & [->|Hc]).
  - exists (chr "-"), r. split; [exact Heq|reflexivity].
  - exists c, r. split; [exact Heq|].
    unfold startsValue. rewrite Hc. now rewrite !orb_true_r.
Qed.

Lemma parseValue_number f c r :
  c = chr "-" \/ isDigit c = true ->
  parseValue (S f) (c :: r) = parseNumber (c :: r).
Proof.
  intros H.
  assert (Hs : startsValue c = true).
  { destruct H as [->|H]; [reflexivity|].
    unfold startsValue. rewrite H. now rewrite !orb_true_r. }
  cbn [parseValue]. rewrite (skipWhiteSpace_start c r Hs).
  assert (Hne : (c =? 34)%N = false /\ (c =? chr "[")%N = false /\
                (c =? chr "{")%N = false /\ (c =? chr "n")%N = false /\
                (c =? chr "t")%N = false /\ (c =? chr "f")%N = false).
  { destruct H as [->|H]; [repeat split; reflexivity|].
    unfold isDigit in H. apply andb_true_iff in H as [H1 H2].
    apply N.leb_le in H1, H2. norm_chr.
    repeat split; apply N.eqb_neq; lia. }
  destruct Hne as (-> & -> & -> & -> & -> & ->). reflexivity.
Qed.

Lemma serializeElements_cons (x : JSON) (l : list JSON) :
  serializeElements JSON_serialize (x :: l) =
  JSON_serialize x ++
  match l with
  | [] => [chr "]"]
  | _ :: _ => chr "," :: serializeElements JSON_serialize l
  end.
Proof. reflexivity. Qed.

Lemma serializeMembers_cons (k : jsstring) (x : JSON) l :
  serializeMembers JSON_serialize ((k, x) :: l) =
  QuoteJSONString k ++ chr ":" :: JSON_serialize x ++
  match l with
  | [] => [chr "}"]
  | _ :: _ => chr "," :: serializeMembers JSON_serialize l
  end.
Proof. reflexivity. Qed.

Lemma serialize_nonempty v : (1 <= length (JSON_serialize v))%nat.
Proof.
  destruct (serialize_head v) as (c & r & -> & _). simpl. lia.
Qed.

Arguments JSON_serialize : simpl never.
Arguments serializeElements : simpl never.
Arguments serializeMembers : simpl never.
Arguments QuoteJSONString : simpl never.

Lemma parse_serialize f :
  (forall v rest,
     (length (JSON_serialize v) <= f)%nat -> exact v = true ->
     delimited rest = true ->
     parseValue f (JSON_serialize v ++ rest) = Some (Exact v, rest)) /\
  (forall x l rest,
     (length (serializeElements JSON_serialize (x :: l)) <= f)%nat ->
     forallb exact (x :: l) = true ->
     parseElements f (serializeElements JSON_serialize (x :: l) ++ rest)
     = Some (Exact (x :: l), rest)) /\
  (forall k x l rest,
     (length (serializeMembers JSON_serialize ((k, x) :: l)) <= f)%nat ->
     forallb (fun m => exact (snd m)) ((k, x) :: l) = true ->
     parseMembers f (serializeMembers JSON_serialize ((k, x) :: l) ++ rest)
     = Some (Exact ((k, x) :: l), rest)).
Proof.
  induction f as [|f (IHv & IHe & IHm)].
  - split; [|split].
    + intros v rest Hlen. pose proof (serialize_nonempty v). lia.
    + intros x l rest Hlen. rewrite serializeElements_cons, length_app in Hlen.
      pose proof (serialize_nonempty x). lia.
    + intros k x l rest Hlen.
      rewrite serializeMembers_cons, length_app in Hlen.
      destruct (parseString_Quote k []) as (r & Hr & _).
      rewrite Hr in Hlen. simpl in Hlen. lia.
  - split; [|split].
    + intros v rest Hlen Hex Hrest.
      destruct v as [|[]|n|s|l|l].
      * reflexivity.
      * reflexivity.
      * reflexivity.
      * change (JSON_serialize (JNumber n)) with (Number_toString n).
        destruct (Number_toString_head n) as (c & r & Heq & Hc).
        rewrite <- (parseNumber_toString n rest);
          [|apply Z.leb_le; exact Hex|exact Hrest].
        rewrite Heq. now apply parseValue_number.
      * change (JSON_serialize (JString s)) with (QuoteJSONString s).
        destruct (parseString_Quote s rest) as (r & -> & Hr).
        cbn [app parseValue skipWhiteSpace].
        replace (isJSONWhiteSpace 34) with false by reflexivity.
        replace (34 =? 34)%N with true by reflexivity.
        now rewrite Hr.
      * change (JSON_serialize (JArray l))
          with (chr "[" :: serializeElements JSON_serialize l) in *.
        destruct l as [|x l]; [reflexivity|].
        cbn [length] in Hlen.
        pose proof (IHe x l rest ltac:(lia) Hex) as He.
        rewrite serializeElements_cons in *.
        destruct (serialize_head x) as (c & r & Hx & Hc).
        rewrite Hx in *.
        destruct (startsValue_facts c Hc) as (Hws & Hb & _).
        cbn [app parseValue skipWhiteSpace] in *.
        replace (isJSONWhiteSpace (chr "[")) with false by reflexivity.
        replace (chr "[" =? 34)%N with false by reflexivity.
        replace (chr "[" =? chr "[")%N with true by reflexivity.
        rewrite (skipWhiteSpace_start _ _ Hc), Hb, He. reflexivity.
      * change (JSON_serialize (JObject l))
          with (chr "{" :: serializeMembers JSON_serialize l) in *.
        destruct l as [|[k x] l]; [reflexivity|].
        cbn [length] in Hlen.
        pose proof (IHm k x l rest ltac:(lia) Hex) as Hm.
        rewrite serializeMembers_cons in *.
        destruct (parseString_Quote k []) as (r & Hk & _).
        rewrite Hk in *.
        cbn [app parseValue skipWhiteSpace] in *.
        replace (isJSONWhiteSpace (chr "{")) with false by reflexivity.
        replace (chr "{" =? 34)%N with false by reflexivity.
        replace (chr "{" =? chr "[")%N with false by reflexivity.
        replace (chr "{" =? chr "{")%N with true by reflexivity.
        replace (isJSONWhiteSpace 34) with false by reflexivity.
        replace (34 =? chr "}")%N with false by reflexivity.
        rewrite Hm. reflexivity.
    + intros x l rest Hlen Hex.
      cbn [forallb] in Hex. apply andb_true_iff in Hex as [Hx Hl].
      rewrite serializeElements_cons in *. rewrite length_app in Hlen.
      rewrite <- app_assoc. cbn [parseElements].
      rewrite IHv.
      * destruct l as [|y l].
        -- reflexivity.
        -- cbn [app skipWhiteSpace].
           replace (isJSONWhiteSpace (chr ",")) with false by reflexivity.
           replace (chr "," =? chr ",")%N with true by reflexivity.
           rewrite IHe; [reflexivity| |exact Hl]. cbn [length] in Hlen. lia.
      * destruct l; cbn [length] in Hlen; lia.
      * exact Hx.
      * destruct l; reflexivity.
    + intros k x l rest Hlen Hex.
      cbn [forallb snd] in Hex. apply andb_true_iff in Hex as [Hx Hl].
      rewrite serializeMembers_cons in *.
      destruct (parseString_Quote k
                  (chr ":" :: JSON_serialize x ++
                   match l with
                   | [] => [chr "}"]
                   | _ :: _ => chr "," :: serializeMembers JSON_serialize l
                   end ++ rest)) as (r & Hk & Hr).
      rewrite Hk in *. rewrite length_app in Hlen. cbn [length] in Hlen.
      rewrite length_app in Hlen.
      cbn [app parseMembers skipWhiteSpace].
      replace (isJSONWhiteSpace 34) with false by reflexivity.
      replace (34 =? 34)%N with true by reflexivity.
      rewrite <- app_assoc. cbn [app]. rewrite <- app_assoc.
      rewrite Hr. cbn [skipWhiteSpace].
      replace (isJSONWhiteSpace (chr ":")) with false by reflexivity.
      replace (chr ":" =? chr ":")%N with true by reflexivity.
      rewrite IHv.
      * destruct l as [|[k' y] l].
        -- reflexivity.
        -- cbn [app skipWhiteSpace].
           replace (isJSONWhiteSpace (chr ",")) with false by reflexivity.
           replace (chr "," =? chr ",")%N with true by reflexivity.
           replace (chr "," =? chr "}")%N with false by reflexivity.
           rewrite IHm; [reflexivity| |exact Hl]. cbn [length] in Hlen. lia.
      * lia.
      * exact Hx.
      * destruct l as [|[]]; reflexivity.
Qed.

(** [JSON.parse] gives back the value [JSON.stringify] serialized. *)
Lemma JSON_parse_serialize v :
  exact v = true -> JSON_parse (JSON_serialize v) = Some (Exact v).
Proof.
  intros Hex. unfold JSON_parse.
  destruct (parse_serialize
              (S (length (JSON_serialize v) + length (JSON_serialize v))))
    as (H & _).
  specialize (H v [] ltac:(lia) Hex eq_refl).
  rewrite app_nil_r in H. rewrite H. reflexivity.
Qed.

(** *** The fuel of the parser *)

Lemma skipWhiteSpace_length s : (length (skipWhiteSpace s) <= length s)%nat.
Proof.
  induction s as [|c s IH]; simpl; [lia|].
  destruct (isJSONWhiteSpace c); simpl; lia.
Qed.

Lemma skipWhiteSpace_cons s c r :
  skipWhiteSpace s = c :: r -> (length r < length s)%nat.
Proof.
  intros H. pose proof (skipWhiteSpace_length s) as Hl.
  rewrite H in Hl. simpl in Hl. lia.
Qed.

Lemma parseString_length n : forall s str rest,
  (length s <= n)%nat -> parseString s = Some (str, rest) ->
  (length rest < length s)%nat.
Proof.
  induction n as [|n IH]; intros s str rest Hn H;
    destruct s as [|c r]; try discriminate; simpl in Hn; [lia|].
  cbn [parseString] in H.
  destruct (c =? 34)%N; [injection H as <- <-; simpl; lia|].
  destruct (N.eqb c _).
  - destruct r as [|e r1]; [discriminate|].
    destruct (N.eqb e _).
    + destruct r1 as [|h1 [|h2 [|h3 [|h4 r2]]]]; try discriminate.
      destruct (hexValue h1), (hexValue h2), (hexValue h3), (hexValue h4);
        try discriminate.
      destruct (parseString r2) as [[str' rest']|] eqn:E; [|discriminate].
      injection H as <- <-. apply IH in E; simpl in *; lia.
    + destruct (simpleEscape e); [|discriminate].
      destruct (parseString r1) as [[str' rest']|] eqn:E; [|discriminate].
      injection H as <- <-. apply IH in E; simpl in *; lia.
  - destruct (N.ltb c _); [discriminate|].
    destruct (parseString r) as [[str' rest']|] eqn:E; [|discriminate].
    injection H as <- <-. apply IH in E; simpl in *; lia.
Qed.

Lemma parseDigits_length s : forall a,
  (length (snd (parseDigits s a)) <= length s)%nat.
Proof.
  induction s as [|c s IH]; intros a; simpl; [lia|].
  destruct (isDigit c); simpl; [|lia]. specialize (IH (10 * a + digitValue c)). lia.
Qed.

Lemma parseInt_length s n r :
  parseInt s = Some (n, r) -> (length r < length s)%nat.
Proof.
  unfold parseInt. destruct s as [|c s]; [discriminate|].
  destruct (N.eqb c _); [intros [= <- <-]; simpl; lia|].
  destruct (isDigit c); [|discriminate].
  intros H. pose proof (parseDigits_length s (digitValue c)) as Hl.
  injection H as H. rewrite H in Hl. simpl in *. lia.
Qed.

Lemma skipDigits_length s r :
  skipDigits s = Some r -> (length r < length s)%nat.
Proof.
  unfold skipDigits. destruct s as [|c s]; [discriminate|].
  destruct (isDigit c); [|discriminate]. intros [= <-].
  pose proof (parseDigits_length s 0). simpl. lia.
Qed.

Lemma parseFraction_length s b r :
  parseFraction s = Some (b, r) -> (length r <= length s)%nat.
Proof.
  unfold parseFraction. destruct s as [|c s]; [intros [= <- <-]; lia|].
  destruct (N.eqb c _).
  - destruct (skipDigits s) as [r'|] eqn:E; [|discriminate].
    intros [= <- <-]. apply skipDigits_length in E. simpl. lia.
  - intros [= <- <-]. lia.
Qed.

Lemma parseExponent_length s b r :
  parseExponent s = Some (b, r) -> (length r <= length s)%nat.
Proof.
  unfold parseExponent. destruct s as [|c s]; [intros [= <- <-]; lia|].
  destruct (_ || _)%bool.
  - destruct (skipDigits _) as [r'|] eqn:E; [|discriminate].
    intros [= <- <-]. apply skipDigits_length in E.
    destruct s as [|c' s']; simpl in *; [lia|].
    destruct (_ || _)%bool; simpl in *; lia.
  - intros [= <- <-]. lia.
Qed.

Lemma parseNumber_length s v rest :
  parseNumber s = Some (v, rest) -> (length rest < length s)%nat.
Proof.
  unfold parseNumber.
  set (p := match s with
            | c :: s' => if N.eqb c _ then (true, s') else (false, s)
            | [] => (false, s)
            end).
  assert (Hp : (length (snd p) <= length s)%nat).
  { subst p. destruct s as [|c s']; simpl; [lia|].
    destruct (N.eqb c _); simpl; lia. }
  destruct p as [negative s1]. simpl in Hp.
  destruct (parseInt s1) as [[n r]|] eqn:E1; [|discriminate].
  destruct (parseFraction r) as [[fraction r1]|] eqn:E2; [|discriminate].
  destruct (parseExponent r1) as [[exponent r2]|] eqn:E3; [|discriminate].
  apply parseInt_length in E1. apply parseFraction_length in E2.
  apply parseExponent_length in E3.
  destruct (_ || _)%bool; intros [= <- <-]; lia.
Qed.

Lemma isPrefix_length p : forall s rest,
  isPrefix p s = Some rest -> (length rest <= length s)%nat.
Proof.
  induction p as [|a p IH]; intros s rest; simpl.
  - intros [= <-]. lia.
  - destruct s as [|b s]; [discriminate|].
    destruct (a =? b)%N; [|discriminate]. intros H. apply IH in H. simpl. lia.
Qed.

Lemma parse_length f :
  (forall s v rest,
     parseValue f s = Some (v, rest) -> (length rest < length s)%nat) /\
  (forall s l rest,
     parseElements f s = Some (l, rest) -> (length rest < length s)%nat) /\
  (forall s l rest,
     parseMembers f s = Some (l, rest) -> (length rest < length s)%nat).
Proof.
  induction f as [|f (IHv & IHe & IHm)]; [repeat split; discriminate|].
  split; [|split].
  - intros s v rest H. cbn [parseValue] in H.
    destruct (skipWhiteSpace s) as [|c r] eqn:Ews; [discriminate|].
    apply skipWhiteSpace_cons in Ews.
    destruct (N.eqb c _).
    { destruct (parseString r) as [[str r']|] eqn:E; [|discriminate].
      injection H as <- <-.
      apply (parseString_length _ _ _ _ (Nat.le_refl _)) in E. lia. }
    destruct (N.eqb c _).
    { destruct (skipWhiteSpace r) as [|c1 r1] eqn:Ews1; [discriminate|].
      apply skipWhiteSpace_cons in Ews1.
      destruct (N.eqb c1 _); [injection H as <- <-; lia|].
      destruct (parseElements f r) as [[l r']|] eqn:E; [|discriminate].
      injection H as <- <-. apply IHe in E. lia. }
    destruct (N.eqb c _).
    { destruct (skipWhiteSpace r) as [|c1 r1] eqn:Ews1; [discriminate|].
      apply skipWhiteSpace_cons in Ews1.
      destruct (N.eqb c1 _); [injection H as <- <-; lia|].
      destruct (parseMembers f r) as [[l r']|] eqn:E; [|discriminate].
      injection H as <- <-. apply IHm in E. lia. }
    destruct (N.eqb c _).
    { destruct (isPrefix _ r) as [r'|] eqn:E; [|discriminate].
      injection H as <- <-. apply isPrefix_length in E. lia. }
    destruct (N.eqb c _).
    { destruct (isPrefix _ r) as [r'|] eqn:E; [|discriminate].
      injection H as <- <-. apply isPrefix_length in E. lia. }
    destruct (N.eqb c _).
    { destruct (isPrefix _ r) as [r'|] eqn:E; [|discriminate].
      injection H as <- <-. apply isPrefix_length in E. lia. }
    apply parseNumber_length in H. simpl in H. lia.
  - intros s l rest H. cbn [parseElements] in H.
    destruct (parseValue f s) as [[v r]|] eqn:Ev; [|discriminate].
    apply IHv in Ev.
    destruct (skipWhiteSpace r) as [|c r1] eqn:Ews; [discriminate|].
    apply skipWhiteSpace_cons in Ews.
    destruct (N.eqb c _).
    { destruct (parseElements f r1) as [[l' r']|] eqn:E; [|discriminate].
      injection H as <- <-. apply IHe in E. lia. }
    destruct (N.eqb c _); [|discriminate].
    injection H as <- <-. lia.
  - intros s l rest H. cbn [parseMembers] in H.
    destruct (skipWhiteSpace s) as [|c r] eqn:Ews; [discriminate|].
    apply skipWhiteSpace_cons in Ews.
    destruct (N.eqb c _); [|discriminate].
    destruct (parseString r) as [[k r1]|] eqn:Ek; [|discriminate].
    apply (parseString_length _ _ _ _ (Nat.le_refl _)) in Ek.
    destruct (skipWhiteSpace r1) as [|c1 r2] eqn:Ews1; [discriminate|].
    apply skipWhiteSpace_cons in Ews1.
    destruct (N.eqb c1 _); [|discriminate].
    destruct (parseValue f r2) as [[v r3]|] eqn:Ev; [|discriminate].
    apply IHv in Ev.
    destruct (skipWhiteSpace r3) as [|c2 r4] eqn:Ews2; [discriminate|].
    apply skipWhiteSpace_cons in Ews2.
    destruct (N.eqb c2 _).
    { destruct (parseMembers f r4) as [[l' r']|] eqn:E; [|discriminate].
      injection H as <- <-. apply IHm in E. lia. }
    destruct (N.eqb c2 _); [|discriminate].
    injection H as <- <-. lia.
Qed.

(** The answer of the parser does not depend on the fuel, once there is
    twice the length of the text and one more. *)
Lemma parse_fuel f1 : forall f2,
  (forall s, (2 * length s < f1)%nat -> (2 * length s < f2)%nat ->
     parseValue f1 s = parseValue f2 s) /\
  (forall s, (2 * length s + 1 < f1)%nat -> (2 * length s + 1 < f2)%nat ->
     parseElements f1 s = parseElements f2 s) /\
  (forall s, (2 * length s + 1 < f1)%nat -> (2 * length s + 1 < f2)%nat ->
     parseMembers f1 s = parseMembers f2 s).
Proof.
  induction f1 as [|f1 IH]; intros f2; [repeat split; intros; lia|].
  destruct f2 as [|f2]; [repeat split; intros; lia|].
  destruct (IH f2) as (IHv & IHe & IHm).
  destruct (parse_length f1) as (Lv & Le & Lm).
  split; [|split].
  - intros s H1 H2. cbn [parseValue].
    destruct (skipWhiteSpace s) as [|c r] eqn:Ews; [reflexivity|].
    apply skipWhiteSpace_cons in Ews.
    rewrite (IHe r), (IHm r) by lia. reflexivity.
  - intros s H1 H2. cbn [parseElements].
    rewrite <- (IHv s) by lia.
    destruct (parseValue f1 s) as [[v r]|] eqn:Ev; [|reflexivity].
    apply Lv in Ev.
    destruct (skipWhiteSpace r) as [|c r1] eqn:Ews; [reflexivity|].
    apply skipWhiteSpace_cons in Ews.
    rewrite (IHe r1) by lia. reflexivity.
  - intros s H1 H2. cbn [parseMembers].
    destruct (skipWhiteSpace s) as [|c r] eqn:Ews; [reflexivity|].
    apply skipWhiteSpace_cons in Ews.
    destruct (N.eqb c _); [|reflexivity].
    destruct (parseString r) as [[k r1]|] eqn:Ek; [|reflexivity].
    apply (parseString_length _ _ _ _ (Nat.le_refl _)) in Ek.
    destruct (skipWhiteSpace r1) as [|c1 r2] eqn:Ews1; [reflexivity|].
    apply skipWhiteSpace_cons in Ews1.
    destruct (N.eqb c1 _); [|reflexivity].
    rewrite <- (IHv r2) by lia.
    destruct (parseValue f1 r2) as [[v r3]|] eqn:Ev; [|reflexivity].
    apply Lv in Ev.
    destruct (skipWhiteSpace r3) as [|c2 r4] eqn:Ews2; [reflexivity|].
    apply skipWhiteSpace_cons in Ews2.
    rewrite (IHm r4) by lia. reflexivity.
Qed.

(** [JSON.parse] with any larger amount of fuel gives the same answer. *)
Lemma JSON_parse_fuel (s : jsstring) (f : nat) :
  (2 * length s < f)%nat ->
  JSON_parse s =
  match parseValue f s with
  | Some (v, rest) =>
      match skipWhiteSpace rest with
      | [] => Some v
      | _ :: _ => None
      end
  | None => None
  end.
Proof.
  intros Hf. unfold JSON_parse.
  destruct (parse_fuel (S (length s + length s)) f) as (H & _).
  now rewrite (H s) by lia.
Qed.

(** ** Persistence: what was saved is what is loaded *)

Arguments Date_toISOString : simpl never.
Arguments Date_parse : simpl never.

Lemma reviveReminderDate_toISOString (d : Date) :
  - maxTime <= getTime d <= maxTime ->
  reviveReminderDate (Some (JString (Date_toISOString d))) = Some (Some d).
Proof.
  intros Hd. unfold reviveReminderDate.
  now rewrite Date_toISOString_truthy, Date_parse_toISOString.
Qed.

(** Evaluates the property lookups of a parsed task. *)
Ltac eval_getMember :=
  repeat match goal with
  | |- context [getMember ?k ?l] =>
      let v := eval vm_compute in (getMember k l) in
      change (getMember k l) with v
  end.

Lemma reviveTask_toJSON (t : Task) :
  persistable t -> reviveTask (Task_toJSON t) = Some t.
Proof.
  destruct t as [i tx c p g r nid]. unfold persistable. simpl.
  intros [_ Hr]. unfold Task_toJSON, reviveTask. simpl.
  destruct r as [d|].
  - pose proof (reviveReminderDate_toISOString d Hr) as Hrev.
    set (iso := Date_toISOString d) in *. clearbody iso.
    destruct p, nid as [n|]; eval_getMember; rewrite Hrev; reflexivity.
  - destruct p, nid as [n|]; eval_getMember; reflexivity.
Qed.

Lemma reviveTasks_toJSON (tasks : list Task) :
  Forall persistable tasks ->
  reviveTasks (List.map Task_toJSON tasks) = Some tasks.
Proof.
  induction 1 as [|t tasks Ht _ IH]; [reflexivity|].
  cbn [List.map reviveTasks]. now rewrite reviveTask_toJSON, IH.
Qed.

Lemma exact_Task_toJSON (t : Task) :
  persistable t -> exact (Task_toJSON t) = true.
Proof.
  intros [Hid _]. destruct t as [i tx c p g r nid]. simpl in Hid.
  unfold Task_toJSON. cbn [exact forallb app snd id].
  assert (H : (Z.abs i <=? MAX_SAFE_INTEGER) = true)
    by (apply Z.leb_le; exact Hid).
  rewrite H. destruct r, nid; reflexivity.
Qed.

Lemma exact_stringify (tasks : list Task) :
  Forall persistable tasks ->
  exact (JArray (List.map Task_toJSON tasks)) = true.
Proof.
  intros H. cbn [exact].
  induction H as [|t tasks Ht _ IH]; [reflexivity|].
  cbn [List.map forallb]. now rewrite exact_Task_toJSON, IH.
Qed.

Lemma isNull_Task_toJSON (tasks : list Task) :
  existsb isNull (List.map Task_toJSON tasks) = false.
Proof. induction tasks as [|t tasks IH]; [reflexivity|exact IH]. Qed.

Lemma tasksWithDates_stringify (tasks : list Task) :
  Forall persistable tasks ->
  tasksWithDates (JSON_stringify tasks) = Some (Resolved tasks).
Proof.
  intros H. unfold tasksWithDates, JSON_stringify.
  rewrite JSON_parse_serialize by now apply exact_stringify.
  unfold mapWithDates.
  now rewrite isNull_Task_toJSON, reviveTasks_toJSON.
Qed.

Lemma JSON_stringify_truthy (tasks : list Task) :
  JsString.truthy (JSON_stringify tasks) = true.
Proof. reflexivity. Qed.

(** C6. Whatever the collection of a session is (ids that numbers hold
    exactly, valid reminder dates), the save effect hands one text to the
    storage under the key "tasks"; and a load effect that gets this text
    back from the storage sets the collection to exactly the saved one:
    every task with all its fields, a reminder date being rebuilt from its
    text to the same time value and an absent reminder (or notification
    id) coming back absent. *)
Theorem saveTasks_loadTasks_roundtrip
  (setItem : jsstring -> jsstring -> Outcome unit) (st st' : AppState) :
  Forall persistable (s_tasks st) ->
  exists payload rest,
    trace (run (saveTasks setItem) st)
      = SetItemRequested STORAGE_KEY payload :: rest /\
    forall getItem,
      getItem STORAGE_KEY = Resolved (Some payload) ->
      exists h,
        loadTasks getItem = Some h /\
        h st' = (Resolved tt, setTasksTo (s_tasks st) st', []).
Proof.
  intros Hp.
  exists (JSON_stringify (s_tasks st)).
  unfold run, saveTasks, try_catch, bind, emit, await, trace.
  destruct (setItem STORAGE_KEY (JSON_stringify (s_tasks st))) as [[]|e];
    eexists; (split; [reflexivity|]);
    intros getItem Hget; unfold loadTasks;
    rewrite Hget, JSON_stringify_truthy, (tasksWithDates_stringify _ Hp);
    eexists; split; reflexivity.
Qed.

(** C6, on a stored collection of two tasks, one with a reminder and a
    notification id, one without. *)
Lemma saveTasks_loadTasks_roundtrip_witness :
  exists h,
    loadTasks (fun _ => Resolved (Some (JSON_stringify (s_tasks Samples.stored))))
      = Some h /\
    s_tasks (nextState (h emptyState)) = [Samples.scheduled; Samples.plain].
Proof.
  assert (Hp : Forall persistable (s_tasks Samples.stored)).
  { repeat constructor; simpl; unfold maxTime; lia. }
  destruct (saveTasks_loadTasks_roundtrip Samples.setItemOk Samples.stored
              emptyState Hp) as (payload & rest & Htr & Hload).
  injection Htr as <- _.
  destruct (Hload (fun _ => Resolved (Some (JSON_stringify (s_tasks Samples.stored))))
              eq_refl) as (h & Hh & Hrun).
  exists h. split; [exact Hh|]. now rewrite Hrun.
Defined.

(** * Further properties of the handlers *)

(** ** [trim] *)

Lemma trimStart_idempotent (s : jsstring) :
  JsString.trimStart (JsString.trimStart s) = JsString.trimStart s.
Proof.
  induction s as [|c s IH]; [reflexivity|]. simpl.
  destruct (JsString.isWhiteSpace c) eqn:E; [exact IH|].
  simpl. now rewrite E.
Qed.

Lemma trimStart_snoc (l : jsstring) (c : N) :
  JsString.isWhiteSpace c = false ->
  JsString.trimStart (l ++ [c]) = JsString.trimStart l ++ [c].
Proof.
  intros Hc. induction l as [|x l IH]; simpl.
  - now rewrite Hc.
  - destruct (JsString.isWhiteSpace x); [exact IH|reflexivity].
Qed.

Lemma trimEnd_cons (c : N) (s : jsstring) :
  JsString.isWhiteSpace c = false ->
  JsString.trimEnd (c :: s) = c :: JsString.trimEnd s.
Proof.
  intros Hc. unfold JsString.trimEnd. simpl rev.
  rewrite trimStart_snoc by exact Hc.
  rewrite rev_app_distr. reflexivity.
Qed.

Lemma trimStart_length (s : jsstring) :
  (length (JsString.trimStart s) <= length s)%nat.
Proof.
  induction s as [|c s IH]; simpl; [lia|].
  destruct (JsString.isWhiteSpace c); simpl; lia.
Qed.

Lemma trimStart_trimEnd (u : jsstring) :
  JsString.trimStart u = u ->
  JsString.trimStart (JsString.trimEnd u) = JsString.trimEnd u.
Proof.
  destruct u as [|c u]; [reflexivity|]. simpl.
  destruct (JsString.isWhiteSpace c) eqn:E.
  - intros H. pose proof (trimStart_length u) as Hl.
    rewrite H in Hl. simpl in Hl. lia.
  - intros _. rewrite trimEnd_cons by exact E. simpl. now rewrite E.
Qed.

Lemma trimEnd_idempotent (s : jsstring) :
  JsString.trimEnd (JsString.trimEnd s) = JsString.trimEnd s.
Proof.
  unfold JsString.trimEnd. now rewrite rev_involutive, trimStart_idempotent.
Qed.

Lemma trim_idempotent (s : jsstring) : trim (trim s) = trim s.
Proof.
  unfold JsString.trim.
  rewrite (trimStart_trimEnd (JsString.trimStart s))
    by apply trimStart_idempotent.
  apply trimEnd_idempotent.
Qed.

Lemma truthy_false_nil (s : jsstring) :
  JsString.truthy s = false <-> s = [].
Proof. destruct s; simpl; split; congruence. Qed.

(** ** Adding *)

Section AddTaskMore.

Variable P : Platform.
Variable st : AppState.

(** X1. With a draft that is not blank and no reminder date, [addTask]
    asks nothing of the notification service, appends one task (id from the
    clock, trimmed text and category, not completed, the priority of the
    form, no reminder, no notification id) and resets the form; the filter,
    the sort order and the edit mode are not touched. *)
Theorem addTask_without_reminder :
  trim (s_task st) <> [] ->
  s_reminderDate st = None ->
  run (addTask P) st =
    (Resolved tt,
     mkState [] (s_tasks st ++
                 [mkTask (Date_now P) (trim (s_task st)) false
                         (s_priority st) (trim (s_category st)) None None])
             Low [] None (s_filter st) (s_sortBy st) (s_editingTask st),
     []).
Proof.
  intros Hne Hd. unfold run, addTask.
  rewrite (truthy_trim _ Hne), Hd. reflexivity.
Qed.

(** X2. With a draft that is not blank and a reminder strictly in the
    future, when scheduling succeeds: exactly one notification is asked
    for, titled "Task Reminder", with the trimmed text as body, the new id
    as task id and the reminder date as trigger; the id the service
    returns is recorded on the appended task; the form is reset. *)
Theorem addTask_scheduled (d : Date) (n : jsstring) :
  trim (s_task st) <> [] ->
  s_reminderDate st = Some d ->
  getTime (new_Date P) < getTime d ->
  scheduleNotificationAsync P
    (mkRequest "Task Reminder" (trim (s_task st)) (Date_now P) d)
    = Resolved n ->
  run (addTask P) st =
    (Resolved tt,
     mkState [] (s_tasks st ++
                 [mkTask (Date_now P) (trim (s_task st)) false
                         (s_priority st) (trim (s_category st))
                         (Some d) (Some n)])
             Low [] None (s_filter st) (s_sortBy st) (s_editingTask st),
     [ScheduleRequested
        (mkRequest "Task Reminder" (trim (s_task st)) (Date_now P) d)]).
Proof.
  intros Hne Hd Hfut Hres. unfold run, addTask.
  rewrite (truthy_trim _ Hne), Hd, (inFuture_Some _ _ Hfut). simpl.
  unfold try_catch, bind at 1, bind at 1, schedule, bind at 1. simpl.
  unfold reminderRequest. rewrite Hres. reflexivity.
Qed.

(** X3. The alert "Task text cannot be empty" is shown exactly when the
    draft consists of white space only (the empty draft included). *)
Theorem addTask_alert_iff_blank :
  In (Alert_alert "Error" "Task text cannot be empty")
     (trace (run (addTask P) st))
  <-> forallb JsString.isWhiteSpace (s_task st) = true.
Proof.
  rewrite <- trim_nil_iff. unfold run, addTask.
  destruct (trim (s_task st)) as [|c r] eqn:E; simpl.
  - split; [reflexivity|]. intros _. now left.
  - split; [|discriminate]. intros H. exfalso. revert H.
    destruct (inFuture P (s_reminderDate st)) as [d|]; simpl.
    + unfold try_catch, bind at 1, bind at 1, schedule, bind at 1. simpl.
      destruct (scheduleNotificationAsync P _) as [n|e]; simpl.
      * intros [H|[]]. discriminate.
      * intros [H|[H|[H|[]]]]; discriminate.
    + intros [].
Qed.

(** X4. However the call ends, [addTask] leaves the stored tasks where
    they are: the collection afterwards is the old one followed by at most
    one task, whose id is the clock reading, whose text is the trimmed
    draft and which is not completed. *)
Theorem addTask_keeps_existing :
  exists added,
    s_tasks (nextState (run (addTask P) st)) = s_tasks st ++ added /\
    (length added <= 1)%nat /\
    Forall (fun t => id t = Date_now P /\ text t = trim (s_task st) /\
                     completed t = false) added.
Proof.
  unfold run, addTask.
  destruct (JsString.truthy (trim (s_task st))); simpl.
  2: { exists []. rewrite app_nil_r. repeat split; [simpl; lia|constructor]. }
  destruct (inFuture P (s_reminderDate st)) as [r|]; simpl.
  - unfold try_catch, bind at 1, bind at 1, schedule, bind at 1. simpl.
    destruct (scheduleNotificationAsync P _) as [n|e]; simpl.
    + eexists [_]. repeat split; [simpl; lia|]. repeat constructor.
    + exists []. rewrite app_nil_r. repeat split; [simpl; lia|constructor].
  - eexists [_]. repeat split; [simpl; lia|]. repeat constructor.
Qed.

End AddTaskMore.

(** X1, on "Buy milk" without reminder. *)
Lemma addTask_without_reminder_witness :
  s_tasks (nextState (run (addTask Samples.working) More.buyMilk)) =
    [mkTask 1000 (js "Buy milk") false Medium (js "Shopping") None None].
Proof.
  rewrite (addTask_without_reminder Samples.working More.buyMilk);
    [reflexivity | discriminate | reflexivity].
Defined.

(** X2, on "Call mom" with a reminder ten minutes ahead. *)
Lemma addTask_scheduled_witness :
  s_tasks (nextState (run (addTask Samples.working) Samples.callMom)) =
    [mkTask 1000 (js "Call mom") false Medium (js "Personal")
            (Some (mkDate 5000)) (Some (js "n-1"))].
Proof.
  rewrite (addTask_scheduled Samples.working Samples.callMom (mkDate 5000)
             (js "n-1"));
    [reflexivity | discriminate | reflexivity | reflexivity | reflexivity].
Defined.

(** ** Completing *)

(** X5. [toggleComplete] asks nothing of the platform and changes nothing
    but the completion of the tasks with the given id, which it flips:
    the tasks keep their number, their order and all their other
    fields. *)
Theorem toggleComplete_flips_only (taskId : Z) (st : AppState) :
  let r := run (fun _ => toggleComplete taskId) st in
  outcome r = Resolved tt /\ trace r = [] /\
  nextState r =
    setTasksTo (s_tasks (nextState r)) st /\
  Forall2 (fun t t' =>
             t' = mkTask (id t) (text t)
                         (if id t =? taskId then negb (completed t)
                          else completed t)
                         (priority t) (category t) (reminderDate t)
                         (notificationId t))
          (s_tasks st) (s_tasks (nextState r)).
Proof.
  simpl. repeat split.
  induction (s_tasks st) as [|t l IH]; simpl; constructor; [|exact IH].
  destruct t as [i tx c p g rd n]. simpl.
  destruct (i =? taskId); reflexivity.
Qed.

(** X6. Checking a task twice gives back the state one started from,
    whatever the id. *)
Theorem toggleComplete_twice (taskId : Z) (st : AppState) :
  nextState (run (fun _ => toggleComplete taskId)
               (nextState (run (fun _ => toggleComplete taskId) st))) = st.
Proof.
  destruct st as [tx ts p c r f s e]. unfold run, toggleComplete, update,
    nextState, setTasksTo. simpl. f_equal.
  rewrite List.map_map. rewrite <- (List.map_id ts) at 2.
  apply List.map_ext. intros [i t c0 p0 g rd n]. simpl.
  destruct (i =? taskId) eqn:E; simpl; [|now rewrite E].
  rewrite E. now rewrite negb_involutive.
Qed.

(** X7. An id that no stored task carries makes [toggleComplete] a no-op:
    the whole state is unchanged. *)
Theorem toggleComplete_unknown_id (taskId : Z) (st : AppState) :
  (forall t, In t (s_tasks st) -> id t <> taskId) ->
  run (fun _ => toggleComplete taskId) st = (Resolved tt, st, []).
Proof.
  intros H. destruct st as [tx ts p c r f s e].
  unfold run, toggleComplete, update, setTasksTo. simpl in *.
  do 3 f_equal. rewrite <- (List.map_id ts) at 2.
  apply List.map_ext_in. intros t Ht.
  destruct (Z.eqb_spec (id t) taskId) as [E|_]; [|reflexivity].
  now apply H in Ht.
Qed.

(** X7, on the stored collection and the id 99. *)
Lemma toggleComplete_unknown_id_witness :
  run (fun _ => toggleComplete 99) Samples.stored
  = (Resolved tt, Samples.stored, []).
Proof.
  apply (toggleComplete_unknown_id 99 Samples.stored).
  intros t [<-|[<-|[]]]; discriminate.
Defined.

(** ** Updating *)

(** X8. Without a task being edited, or with a blank draft, [updateTask]
    does nothing at all: no cell changes, nothing is asked of the platform
    and, unlike [addTask], no alert is shown. *)
Theorem updateTask_ignored (P : Platform) (st : AppState) :
  s_editingTask st = None \/ trim (s_task st) = [] ->
  run (updateTask P) st = (Resolved tt, st, []).
Proof.
  intros H. unfold run, updateTask.
  destruct (s_editingTask st) as [e|]; [|reflexivity].
  destruct H as [H|H]; [discriminate|]. now rewrite H.
Qed.

(** X8, on a blank draft while a task is edited. *)
Lemma updateTask_ignored_witness :
  run (updateTask Samples.working) More.editingBlank
  = (Resolved tt, More.editingBlank, []).
Proof.
  apply (updateTask_ignored Samples.working More.editingBlank).
  right. reflexivity.
Defined.

Section UpdateTaskMore.

Variable P : Platform.
Variable st : AppState.
Variable editingTask : Task.
Variable n : jsstring.
Variable d : Date.

Hypothesis Hediting : s_editingTask st = Some editingTask.
Hypothesis Htext : trim (s_task st) <> [].
Hypothesis Hnid : notificationId editingTask = Some n.
Hypothesis Hn : n <> [].
Hypothesis Hcancel : cancelScheduledNotificationAsync P n = Resolved tt.
Hypothesis Hdate : s_reminderDate st = Some d.
Hypothesis Hfuture : getTime (new_Date P) < getTime d.

(** X9. Updating a task that has a notification, with a reminder strictly
    in the future, when both notification calls succeed: the old
    notification is cancelled first, then a new one is scheduled (body: the
    trimmed draft; task id: the id of the edited task); every task with
    that id gets the trimmed text, the priority, the trimmed category, the
    reminder date of the form and the new notification id, keeping its id
    and its completion; the other tasks are untouched; the edit mode is
    left and the form is reset. *)
Theorem updateTask_reschedules (m : jsstring) :
  scheduleNotificationAsync P
    (mkRequest "Task Reminder" (trim (s_task st)) (id editingTask) d)
    = Resolved m ->
  run (updateTask P) st =
    (Resolved tt,
     mkState []
       (List.map (fun t =>
          if id t =? id editingTask then
            mkTask (id t) (trim (s_task st)) (completed t) (s_priority st)
                   (trim (s_category st)) (Some d) (Some m)
          else t) (s_tasks st))
       Low [] None (s_filter st) (s_sortBy st) None,
     [CancelRequested n;
      ScheduleRequested
        (mkRequest "Task Reminder" (trim (s_task st)) (id editingTask) d)]).
Proof.
  intros Hres. unfold run, updateTask.
  rewrite Hediting, (truthy_trim _ Htext), Hnid, (truthyId_Some _ Hn), Hdate,
    (inFuture_Some _ _ Hfuture).
  simpl. unfold try_catch, bind at 1, cancel, bind at 1, emit, await. simpl.
  rewrite Hcancel. simpl.
  unfold bind at 1, bind at 1, schedule, bind at 1. simpl.
  unfold reminderRequest. rewrite Hres. reflexivity.
Qed.

(** X10. When the old notification has been cancelled and scheduling the
    new one fails, the update is abandoned with the alert
    "Failed to update task": no cell changes, so that the edited task keeps
    in the collection the id of a notification that no longer exists. *)
Theorem updateTask_schedule_failure_keeps_cancelled_id (e : Error) :
  scheduleNotificationAsync P
    (mkRequest "Task Reminder" (trim (s_task st)) (id editingTask) d)
    = Rejected e ->
  run (updateTask P) st =
    (Resolved tt, st,
     [CancelRequested n;
      ScheduleRequested
        (mkRequest "Task Reminder" (trim (s_task st)) (id editingTask) d);
      console_error "Error updating task:" e;
      Alert_alert "Error" "Failed to update task"]).
Proof.
  intros Hrej. unfold run, updateTask.
  rewrite Hediting, (truthy_trim _ Htext), Hnid, (truthyId_Some _ Hn), Hdate,
    (inFuture_Some _ _ Hfuture).
  simpl. unfold try_catch, bind at 1, cancel, bind at 1, emit, await. simpl.
  rewrite Hcancel. simpl.
  unfold bind at 1, bind at 1, schedule, bind at 1. simpl.
  unfold reminderRequest. rewrite Hrej. reflexivity.
Qed.

End UpdateTaskMore.

(** X9, on the edit of "Call mom" into "Call dad". *)
Lemma updateTask_reschedules_witness :
  s_tasks (nextState (run (updateTask Samples.working) Samples.editing)) =
    [mkTask 7 (js "Call dad") false High (js "Family")
            (Some (mkDate 5000)) (Some (js "n-1"));
     Samples.plain].
Proof.
  rewrite (updateTask_reschedules Samples.working Samples.editing
             Samples.scheduled (js "n-0") (mkDate 5000)
             eq_refl ltac:(discriminate) eq_refl ltac:(discriminate)
             eq_refl eq_refl eq_refl (js "n-1") eq_refl).
  reflexivity.
Defined.

(** X10, on the same edit when only scheduling fails. *)
Lemma updateTask_schedule_failure_keeps_cancelled_id_witness :
  In Samples.scheduled
     (s_tasks (nextState (run (updateTask More.schedulingFails)
                              Samples.editing))) /\
  In (CancelRequested (js "n-0"))
     (trace (run (updateTask More.schedulingFails) Samples.editing)).
Proof.
  rewrite (updateTask_schedule_failure_keeps_cancelled_id
             More.schedulingFails Samples.editing Samples.scheduled
             (js "n-0") (mkDate 5000)
             eq_refl ltac:(discriminate) eq_refl ltac:(discriminate)
             eq_refl eq_refl eq_refl "scheduling failed"%string eq_refl).
  split; now left.
Defined.

(** X11. However the call ends, [updateTask] neither adds, removes nor
    reorders tasks: the collection afterwards is the old one with some
    tasks replaced, each replacement keeping the id and the completion of
    the task, and tasks whose id is not the one of the edited task being
    left as they are. *)
Theorem updateTask_keeps_shape (P : Platform) (st : AppState) :
  exists f,
    s_tasks (nextState (run (updateTask P) st)) = List.map f (s_tasks st) /\
    forall t,
      id (f t) = id t /\ completed (f t) = completed t /\
      (forall e, s_editingTask st = Some e -> id t <> id e -> f t = t) /\
      (s_editingTask st = None -> f t = t).
Proof.
  assert (Hsame : forall l : list Task, l = s_tasks st ->
    exists f, l = List.map f (s_tasks st) /\
      forall t, id (f t) = id t /\ completed (f t) = completed t /\
        (forall e, s_editingTask st = Some e -> id t <> id e -> f t = t) /\
        (s_editingTask st = None -> f t = t)).
  { intros l ->. exists (fun t => t). split; [now rewrite List.map_id|].
    intros t. split; [reflexivity|]. split; [reflexivity|].
    split; reflexivity. }
  unfold run, updateTask.
  destruct (s_editingTask st) as [e|] eqn:He; [|apply Hsame; reflexivity].
  destruct (JsString.truthy (trim (s_task st))); simpl; [|apply Hsame; reflexivity].
  assert (Hdone : forall nid (l : list Task),
    l = List.map (fun t =>
      if id t =? id e then
        mkTask (id t) (trim (s_task st)) (completed t) (s_priority st)
               (trim (s_category st)) (s_reminderDate st) nid
      else t) (s_tasks st) ->
    exists f, l = List.map f (s_tasks st) /\
      forall t, id (f t) = id t /\ completed (f t) = completed t /\
        (forall e0, Some e = Some e0 -> id t <> id e0 -> f t = t) /\
        (Some e = None -> f t = t)).
  { intros nid l ->. eexists. split; [reflexivity|].
    intros t. cbv beta.
    destruct (Z.eqb_spec (id t) (id e)) as [E|E]; simpl.
    - split; [reflexivity|]. split; [reflexivity|]. split.
      + intros e0 H0 Hne. injection H0 as <-. congruence.
      + discriminate.
    - split; [reflexivity|]. split; [reflexivity|]. split; reflexivity. }
  unfold try_catch, bind at 1.
  destruct (truthyId (notificationId e)) as [n|].
  - unfold cancel, bind at 1, emit, await. simpl.
    destruct (cancelScheduledNotificationAsync P n) as [[]|err]; simpl;
      [|apply Hsame; reflexivity].
    destruct (inFuture P (s_reminderDate st)) as [r|]; simpl.
    + unfold bind at 1, bind at 1, schedule, bind at 1. simpl.
      destruct (scheduleNotificationAsync P _) as [m|err]; simpl;
        [|apply Hsame; reflexivity].
      apply (Hdone (Some m)); reflexivity.
    + apply (Hdone None); reflexivity.
  - simpl.
    destruct (inFuture P (s_reminderDate st)) as [r|]; simpl.
    + unfold bind at 1, bind at 1, schedule, bind at 1. simpl.
      destruct (scheduleNotificationAsync P _) as [m|err]; simpl;
        [|apply Hsame; reflexivity].
      apply (Hdone (Some m)); reflexivity.
    + apply (Hdone None); reflexivity.
Qed.

Lemma same_id_same_task (l : list Task) (a b : Task) :
  NoDup (List.map id l) -> In a l -> In b l -> id a = id b -> a = b.
Proof.
  induction l as [|x l IH]; intros Hnd Ha Hb E; [destruct Ha|].
  simpl in Hnd. apply NoDup_cons in Hnd as [Hx Hnd].
  assert (Hout : forall c, In c l -> id c <> id x).
  { intros c Hc Hcx. apply Hx. rewrite <- Hcx.
    apply list_elem_of_In. now apply in_map. }
  destruct Ha as [->|Ha], Hb as [->|Hb].
  - reflexivity.
  - exfalso. apply (Hout b Hb). congruence.
  - exfalso. apply (Hout a Ha). congruence.
  - now apply IH.
Qed.

(** X12. Pressing the edit button of a task and submitting the form as it
    was filled leaves the collection unchanged, when the ids of the
    collection are pairwise distinct and the task has a text without
    surrounding white space, a category without surrounding white space, no
    notification id and no reminder in the future. *)
Theorem edit_then_submit_unchanged (P : Platform) (st : AppState) (t : Task) :
  In t (s_tasks st) ->
  NoDup (List.map id (s_tasks st)) ->
  tidy t -> trim (category t) = category t ->
  notificationId t = None ->
  inFuture P (reminderDate t) = None ->
  s_tasks (step (PressSubmit P) (step (PressEdit t) st)) = s_tasks st.
Proof.
  intros Hin Hnd [Hne Htrim] Hcat Hnid Hrem.
  unfold step at 2. simpl handle.
  set (st1 := nextState (run (fun _ => startEditing t) st)).
  assert (H1 : st1 = mkState (text t) (s_tasks st) (priority t) (category t)
                             (reminderDate t) (s_filter st) (s_sortBy st)
                             (Some t)) by reflexivity.
  clearbody st1. subst st1.
  unfold step, handle, submit, run, updateTask. simpl.
  rewrite Htrim, Hcat, Hnid, Hrem.
  destruct (text t) as [|c r] eqn:Etext; [congruence|]. simpl.
  rewrite <- (List.map_id (s_tasks st)) at 2.
  apply List.map_ext_in. intros t' Ht'.
  destruct (Z.eqb_spec (id t') (id t)) as [E|_]; [|reflexivity].
  rewrite (same_id_same_task _ t' t Hnd Ht' Hin E).
  destruct t; simpl in *. congruence.
Qed.

(** X12, on the edit of "Buy milk" in the stored collection. *)
Lemma edit_then_submit_unchanged_witness :
  s_tasks (step (PressSubmit Samples.working)
                (step (PressEdit Samples.plain) Samples.stored))
  = s_tasks Samples.stored.
Proof.
  apply (edit_then_submit_unchanged Samples.working Samples.stored
           Samples.plain).
  - right. now left.
  - simpl. apply NoDup_cons. split.
    + intros H. apply list_elem_of_In in H. simpl in H. lia.
    + apply NoDup_singleton.
  - split; [discriminate|reflexivity].
  - reflexivity.
  - reflexivity.
  - reflexivity.
Defined.

(** ** Deleting *)

Lemma find_none_notification (l : list Task) (taskId : Z) :
  (forall t, In t l -> id t = taskId -> notificationId t = None) ->
  truthyId (List.find (fun t => id t =? taskId) l ≫= notificationId) = None.
Proof.
  intros H. destruct (List.find _ l) as [t|] eqn:E; [|reflexivity].
  apply find_some in E as [Hin Hid]. apply Z.eqb_eq in Hid.
  simpl. now rewrite (H t Hin Hid).
Qed.

(** X13. Deleting by an id whose tasks carry no notification id asks
    nothing of the notification service and removes every task with that
    id, the others staying in their order; no other cell changes. *)
Theorem deleteTask_without_notification (P : Platform) (taskId : Z)
  (st : AppState) :
  (forall t, In t (s_tasks st) -> id t = taskId -> notificationId t = None) ->
  run (deleteTask P taskId) st =
    (Resolved tt,
     setTasksTo (List.filter (fun t => negb (id t =? taskId)) (s_tasks st)) st,
     []).
Proof.
  intros H. unfold run, deleteTask.
  rewrite (find_none_notification _ _ H). reflexivity.
Qed.

(** X13, on the task "Buy milk" of the stored collection. *)
Lemma deleteTask_without_notification_witness :
  s_tasks (nextState (run (deleteTask Samples.failing 8) Samples.stored))
  = [Samples.scheduled].
Proof.
  rewrite (deleteTask_without_notification Samples.failing 8 Samples.stored).
  - reflexivity.
  - intros t [<-|[<-|[]]]; [discriminate|reflexivity].
Defined.

Lemma filter_other_ids (l : list Task) (taskId : Z) :
  (forall t, In t l -> id t <> taskId) ->
  List.filter (fun t => negb (id t =? taskId)) l = l.
Proof.
  induction l as [|x l IH]; intros H; [reflexivity|]. simpl.
  destruct (Z.eqb_spec (id x) taskId) as [E|_]; simpl.
  - exfalso. apply (H x); [now left|exact E].
  - f_equal. apply IH. intros t Ht. apply H. now right.
Qed.

(** X14. Deleting by an id that no stored task carries changes nothing and
    asks nothing of the platform. *)
Theorem deleteTask_unknown_id (P : Platform) (taskId : Z) (st : AppState) :
  (forall t, In t (s_tasks st) -> id t <> taskId) ->
  run (deleteTask P taskId) st = (Resolved tt, st, []).
Proof.
  intros H. unfold run, deleteTask.
  rewrite find_none_notification
    by (intros t Ht E; now apply H in Ht).
  simpl. unfold bind, ret, update. simpl.
  rewrite (filter_other_ids _ _ H). now destruct st.
Qed.

(** X14, on the stored collection and the id 99. *)
Lemma deleteTask_unknown_id_witness :
  run (deleteTask Samples.failing 99) Samples.stored
  = (Resolved tt, Samples.stored, []).
Proof.
  apply (deleteTask_unknown_id Samples.failing 99 Samples.stored).
  intros t [<-|[<-|[]]]; discriminate.
Defined.

(** X15. However the call ends, [deleteTask] touches no cell but the
    collection and no task of another id; and when the call succeeds, no
    task with the given id is left. *)
Theorem deleteTask_frame (P : Platform) (taskId : Z) (st : AppState) :
  let r := run (deleteTask P taskId) st in
  nextState r = setTasksTo (s_tasks (nextState r)) st /\
  List.filter (fun t => negb (id t =? taskId)) (s_tasks (nextState r))
    = List.filter (fun t => negb (id t =? taskId)) (s_tasks st) /\
  (outcome r = Resolved tt ->
   forall t, In t (s_tasks (nextState r)) -> id t <> taskId).
Proof.
  assert (Hidem : forall l : list Task,
    List.filter (fun t => negb (id t =? taskId))
      (List.filter (fun t => negb (id t =? taskId)) l)
    = List.filter (fun t => negb (id t =? taskId)) l).
  { intros l. induction l as [|x l IH]; [reflexivity|]. simpl.
    destruct (negb (id x =? taskId)) eqn:E; [|exact IH].
    simpl. now rewrite E, IH. }
  assert (Hgone : forall l t,
    In t (List.filter (fun t => negb (id t =? taskId)) l) -> id t <> taskId).
  { intros l t Ht. apply filter_In in Ht as [_ Ht].
    apply negb_true_iff, Z.eqb_neq in Ht. exact Ht. }
  unfold run, deleteTask, outcome, nextState.
  destruct (truthyId _) as [n|]; simpl.
  - unfold bind at 1, cancel, bind at 1, emit, await. simpl.
    destruct (cancelScheduledNotificationAsync P n) as [[]|e]; simpl.
    + split; [reflexivity|]. split; [apply Hidem|]. intros _. apply Hgone.
    + split; [now destruct st|]. split; [reflexivity|]. discriminate.
  - split; [reflexivity|]. split; [apply Hidem|]. intros _. apply Hgone.
Qed.

(** ** Adding, then deleting *)

Lemma find_app_new (l : list Task) (x : Task) :
  (forall t, In t l -> id t <> id x) ->
  List.find (fun t => id t =? id x) (l ++ [x]) = Some x.
Proof.
  induction l as [|y l IH]; intros H; simpl.
  - now rewrite Z.eqb_refl.
  - destruct (Z.eqb_spec (id y) (id x)) as [E|_].
    + exfalso. apply (H y); [now left|exact E].
    + apply IH. intros t Ht. apply H. now right.
Qed.

(** X16. A task added with a reminder in the future and then deleted by
    its id: the cancellation asked for is the one of the notification id
    that scheduling returned, and the collection is back to what it was
    before the add, provided the clock reading used as id is not the id of
    a task already stored. *)
Theorem add_then_delete (P P' : Platform) (st : AppState) (d : Date)
  (n : jsstring) :
  trim (s_task st) <> [] ->
  s_reminderDate st = Some d ->
  getTime (new_Date P) < getTime d ->
  scheduleNotificationAsync P
    (mkRequest "Task Reminder" (trim (s_task st)) (Date_now P) d)
    = Resolved n ->
  n <> [] ->
  cancelScheduledNotificationAsync P' n = Resolved tt ->
  (forall t, In t (s_tasks st) -> id t <> Date_now P) ->
  let added := nextState (run (addTask P) st) in
  let r := run (deleteTask P' (Date_now P)) added in
  trace r = [CancelRequested n] /\ s_tasks (nextState r) = s_tasks st.
Proof.
  intros Hne Hd Hfut Hres Hn Hcancel Hfresh added r.
  assert (Hadded : s_tasks added = s_tasks st ++
    [mkTask (Date_now P) (trim (s_task st)) false (s_priority st)
            (trim (s_category st)) (Some d) (Some n)]).
  { subst added. unfold run, addTask.
    rewrite (truthy_trim _ Hne), Hd, (inFuture_Some _ _ Hfut). simpl.
    unfold try_catch, bind at 1, bind at 1, schedule, bind at 1. simpl.
    unfold reminderRequest. rewrite Hres. reflexivity. }
  subst r. clearbody added. unfold run, deleteTask. rewrite Hadded.
  pose proof (find_app_new (s_tasks st)
             (mkTask (Date_now P) (trim (s_task st)) false (s_priority st)
                     (trim (s_category st)) (Some d) (Some n)) Hfresh) as Hf.
  simpl in Hf. rewrite Hf.
  destruct n as [|c n']; [congruence|]. simpl.
  unfold bind at 1, cancel, bind at 1, emit, await. simpl.
  rewrite Hcancel. simpl. split; [reflexivity|].
  rewrite Hadded, List.filter_app. simpl.
  rewrite Z.eqb_refl. simpl. rewrite app_nil_r.
  now apply filter_other_ids.
Qed.

(** X16, on "Call mom" added to an empty collection and deleted. *)
Lemma add_then_delete_witness :
  let added := nextState (run (addTask Samples.working) Samples.callMom) in
  let r := run (deleteTask Samples.working 1000) added in
  trace r = [CancelRequested (js "n-1")] /\ s_tasks (nextState r) = [].
Proof.
  apply (add_then_delete Samples.working Samples.working Samples.callMom
           (mkDate 5000) (js "n-1"));
    try (reflexivity || discriminate).
  intros t [].
Defined.

(** ** Two calls from one render *)

(** A call that nothing interrupts: run up to the [await] and resumed at
    once, [addTask] is the handler of the component. *)
Lemma addTask_begin_resume (P : Platform) (st s : AppState) :
  addTask P st s =
  (waiting <- addTask_begin P st ;;
   match waiting with
   | Some w => addTask_resume st w
   | None => ret tt
   end) s.
Proof.
  unfold addTask, addTask_begin, addTask_resume.
  destruct (negb (JsString.truthy (trim (s_task st)))); [reflexivity|].
  destruct (inFuture P (s_reminderDate st)) as [r|]; [|reflexivity].
  unfold try_catch, bind, schedule, bind, emit, await, ret, update. simpl.
  destruct (scheduleNotificationAsync P _) as [n|e]; reflexivity.
Qed.

(** X17. [addTask] stores [[...tasks, newTask]] with the [tasks] of the
    render it was created in. When the add button is pressed a second time
    while the first call waits for the notification service (a non-blank
    draft with a reminder that is in the future for the first call, whose
    scheduling succeeds), one task only is kept, the one of the call that
    stores last: the state is the one this call would leave alone. That
    call is the first one when the second did not have to wait (the
    reminder is past by then), and otherwise the one whose scheduling
    settles last; the notifications of both have been requested. *)
Theorem addTask_twice_from_one_render (P1 P2 : Platform) (st : AppState)
  (order : Settling) (r : Date) (n1 : jsstring) :
  trim (s_task st) <> [] ->
  inFuture P1 (s_reminderDate st) = Some r ->
  scheduleNotificationAsync P1
    (reminderRequest (trim (s_task st)) (Date_now P1) r) = Resolved n1 ->
  let both := addTask_overlapping P1 P2 st order st in
  (inFuture P2 (s_reminderDate st) = None ->
   nextState both = nextState (run (addTask P1) st) /\
   trace both =
     [ScheduleRequested
        (reminderRequest (trim (s_task st)) (Date_now P1) r)]) /\
  (forall n2,
   inFuture P2 (s_reminderDate st) = Some r ->
   scheduleNotificationAsync P2
     (reminderRequest (trim (s_task st)) (Date_now P2) r) = Resolved n2 ->
   nextState both =
     nextState (run (addTask match order with
                             | FirstSettlesFirst => P2
                             | SecondSettlesFirst => P1
                             end) st) /\
   trace both =
     [ScheduleRequested
        (reminderRequest (trim (s_task st)) (Date_now P1) r);
      ScheduleRequested
        (reminderRequest (trim (s_task st)) (Date_now P2) r)]).
Proof.
  intros Hne H1 Hn1 both. subst both.
  unfold run, addTask_overlapping, addTask_begin, addTask_resume, addTask.
  rewrite (truthy_trim _ Hne), H1. simpl.
  split.
  - intros H2. rewrite H2.
    unfold try_catch, bind, schedule, bind, emit, await, ret, update.
    simpl. rewrite Hn1. simpl. split; reflexivity.
  - intros n2 H2 Hn2. rewrite H2.
    unfold try_catch, bind, schedule, bind, emit, await, ret, update.
    simpl. destruct order; rewrite ?H1, ?H2; simpl; rewrite Hn1, Hn2; simpl;
      split; reflexivity.
Qed.

(** X17, on "Call mom" added at time 1000 with a reminder at time 5000,
    the button being pressed again at time 6000 while the scheduling is
    still awaited: the second task is lost. *)
Lemma addTask_twice_from_one_render_witness :
  let both :=
    addTask_overlapping Samples.working More.muchLater More.drafting
      FirstSettlesFirst More.drafting in
  List.map id (s_tasks (nextState both)) = [7; 8; 1000] /\
  length (trace both) = 1%nat.
Proof.
  destruct (addTask_twice_from_one_render Samples.working More.muchLater
              More.drafting FirstSettlesFirst (mkDate 5000) (js "n-1"))
    as [H _]; [discriminate | reflexivity | reflexivity |].
  destruct (H eq_refl) as [Hs Ht].
  cbv zeta. rewrite Hs, Ht. split; reflexivity.
Defined.

(** ** More on the projection *)

Lemma compareFn_sortKey (sortBy : SortBy) (a b : Task) :
  compareFn sortBy a b <= 0 <-> sortKey sortBy a <= sortKey sortBy b.
Proof. destruct sortBy; simpl; lia. Qed.

Lemma sorted_copy_unsorted (l : list Task) :
  sorted_copy (compareFn SortNone) l = l.
Proof.
  induction l as [|x l IH]; [reflexivity|]. simpl. rewrite IH.
  destruct l; reflexivity.
Qed.

Lemma filter_all_pass {A} (p : A -> bool) (l : list A) :
  (forall x, In x l -> p x = true) -> List.filter p l = l.
Proof.
  induction l as [|x l IH]; intros H; [reflexivity|]. simpl.
  rewrite (H x) by now left. f_equal. apply IH. intros y Hy. apply H.
  now right.
Qed.

(** X18. Without a sort order the projection is the filter alone: the
    tasks that pass, in the order of the collection; and with the filter
    All as well it is the collection itself. *)
Theorem project_unsorted (filter : Filter) (tasks : list Task) :
  project filter SortNone tasks = List.filter (filterFn filter) tasks /\
  project All SortNone tasks = tasks.
Proof.
  unfold project. rewrite !sorted_copy_unsorted. split; [reflexivity|].
  apply filter_all_pass. reflexivity.
Qed.

(** X19. Whatever the sort order, the projection shows exactly the tasks
    of the collection that pass the filter, each as often as it is stored:
    it is a rearrangement of the filtered collection. *)
Theorem project_rearranges (filter : Filter) (sortBy : SortBy)
  (tasks : list Task) :
  Permutation (List.filter (filterFn filter) tasks)
              (project filter sortBy tasks) /\
  (forall t, In t (project filter sortBy tasks)
             <-> In t tasks /\ filterFn filter t = true) /\
  length (project filter sortBy tasks)
    = length (List.filter (filterFn filter) tasks).
Proof.
  assert (Hp : Permutation (List.filter (filterFn filter) tasks)
                           (project filter sortBy tasks))
    by apply sorted_copy_perm.
  split; [exact Hp|]. split.
  - intros t. rewrite <- filter_In. split; intros H.
    + eapply Permutation_in; [symmetry; exact Hp|exact H].
    + eapply Permutation_in; [exact Hp|exact H].
  - symmetry. now apply Permutation_length.
Qed.

(** X20. For every sort order the projection is sorted by the key of that
    order and keeps the tasks of equal key in the order of the collection:
    under Date, tasks with the same reminder time, and all tasks without
    reminder, stay in their stored order. *)
Theorem project_sorted_stable (filter : Filter) (sortBy : SortBy)
  (tasks : list Task) :
  StronglySorted (fun a b => sortKey sortBy a <= sortKey sortBy b)
                 (project filter sortBy tasks) /\
  forall k,
    List.filter (fun t => sortKey sortBy t =? k) (project filter sortBy tasks)
    = List.filter (fun t => sortKey sortBy t =? k)
                  (List.filter (filterFn filter) tasks).
Proof.
  split.
  - apply (sorted_copy_sorted (compareFn sortBy) (sortKey sortBy)
             (compareFn_sortKey sortBy)).
  - intros k.
    apply (sorted_copy_stable (compareFn sortBy) (sortKey sortBy)
             (compareFn_sortKey sortBy)).
    intros a b Ha Hb. apply Z.eqb_eq in Ha, Hb. congruence.
Qed.

(** X21. Projecting a projection again with the same filter and sort order
    changes nothing. *)
Theorem project_idempotent (filter : Filter) (sortBy : SortBy)
  (tasks : list Task) :
  project filter sortBy (project filter sortBy tasks)
  = project filter sortBy tasks.
Proof.
  unfold project at 1.
  rewrite (filter_all_pass (filterFn filter) (project filter sortBy tasks)).
  - symmetry.
    apply (sorted_copy_unique (compareFn sortBy) (sortKey sortBy)
             (compareFn_sortKey sortBy)); [|reflexivity].
    apply (sorted_copy_sorted (compareFn sortBy) (sortKey sortBy)
             (compareFn_sortKey sortBy)).
  - intros t Ht.
    apply (Permutation_in _ (Permutation_sym
             (sorted_copy_perm (compareFn sortBy) _))) in Ht.
    apply filter_In in Ht. tauto.
Qed.

(** X22. The filters Completed and Pending split the collection: no task
    is shown under both, and together they show as many tasks as the
    filter All. *)
Theorem project_Completed_Pending (sortBy sortBy' : SortBy)
  (tasks : list Task) :
  (forall t, In t (project Completed sortBy tasks) ->
             ~ In t (project Pending sortBy' tasks)) /\
  (length (project Completed sortBy tasks)
   + length (project Pending sortBy' tasks)
   = length (project All sortBy tasks))%nat.
Proof.
  split.
  - intros t Hc Hp.
    apply (Permutation_in _ (Permutation_sym
             (sorted_copy_perm (compareFn sortBy) _))) in Hc.
    apply (Permutation_in _ (Permutation_sym
             (sorted_copy_perm (compareFn sortBy') _))) in Hp.
    apply filter_In in Hc as [_ Hc]. apply filter_In in Hp as [_ Hp].
    simpl in Hc, Hp. rewrite Hc in Hp. discriminate.
  - unfold project.
    rewrite <- !(Permutation_length (sorted_copy_perm _ _)).
    induction tasks as [|t l IH]; [reflexivity|]. simpl.
    destruct (completed t); simpl; simpl in IH; lia.
Qed.

(** ** What the actions of the screen keep true *)

Lemma inFuture_reminder (P : Platform) (r : option Date) (d : Date) :
  inFuture P r = Some d -> r <> None.
Proof. destruct r; [discriminate|]. discriminate. Qed.

Lemma submit_changes_tasks (P : Platform) (st : AppState) :
  TasksChange st (s_tasks (nextState (run (submit P) st))).
Proof.
  unfold run, submit.
  destruct (s_editingTask st) as [e|] eqn:He.
  - unfold updateTask. rewrite He.
    destruct (trim (s_task st)) as [|c0 r0] eqn:Et; [apply Unchanged|].
    assert (Hne : trim (s_task st) <> []) by (rewrite Et; discriminate).
    rewrite <- Et. simpl JsString.truthy. rewrite (truthy_trim _ Hne).
    simpl. unfold try_catch, bind at 1.
    destruct (truthyId (notificationId e)) as [n|].
    + unfold cancel, bind at 1, emit, await. simpl.
      destruct (cancelScheduledNotificationAsync P n) as [[]|err]; simpl;
        [|apply Unchanged].
      destruct (inFuture P (s_reminderDate st)) as [r|] eqn:Ef; simpl.
      * unfold bind at 1, bind at 1, schedule, bind at 1. simpl.
        destruct (scheduleNotificationAsync P _) as [m|err]; simpl;
          [|apply Unchanged].
        apply (Replaced st e (Some m) Hne). intros _.
        exact (inFuture_reminder _ _ _ Ef).
      * apply (Replaced st e None Hne). congruence.
    + simpl.
      destruct (inFuture P (s_reminderDate st)) as [r|] eqn:Ef; simpl.
      * unfold bind at 1, bind at 1, schedule, bind at 1. simpl.
        destruct (scheduleNotificationAsync P _) as [m|err]; simpl;
          [|apply Unchanged].
        apply (Replaced st e (Some m) Hne). intros _.
        exact (inFuture_reminder _ _ _ Ef).
      * apply (Replaced st e None Hne). congruence.
  - unfold addTask.
    destruct (trim (s_task st)) as [|c0 r0] eqn:Et; [apply Unchanged|].
    assert (Hne : trim (s_task st) <> []) by (rewrite Et; discriminate).
    rewrite <- Et. rewrite (truthy_trim _ Hne). simpl.
    destruct (inFuture P (s_reminderDate st)) as [r|] eqn:Ef; simpl.
    + unfold try_catch, bind at 1, bind at 1, schedule, bind at 1. simpl.
      destruct (scheduleNotificationAsync P _) as [m|err]; simpl;
        [|apply Unchanged].
      apply (Appended st (Date_now P) (Some m) Hne). intros _.
      exact (inFuture_reminder _ _ _ Ef).
    + apply (Appended st (Date_now P) None Hne). congruence.
Qed.

Lemma deleteTask_changes_tasks (P : Platform) (taskId : Z) (st : AppState) :
  TasksChange st (s_tasks (nextState (run (deleteTask P taskId) st))).
Proof.
  unfold run, deleteTask.
  destruct (truthyId _) as [n|]; simpl.
  - unfold bind at 1, cancel, bind at 1, emit, await. simpl.
    destruct (cancelScheduledNotificationAsync P n) as [[]|e]; simpl.
    + apply Removed.
    + apply Unchanged.
  - apply Removed.
Qed.

(** Every action changes the collection in one of five ways. *)
Lemma step_changes_tasks (a : Action) (st : AppState) :
  TasksChange st (s_tasks (step a st)).
Proof.
  destruct a as [s|p|cat|date|f|s|P|taskId|item|P taskId|];
    try exact (Unchanged st).
  - destruct date; exact (Unchanged st).
  - apply submit_changes_tasks.
  - exact (Toggled st taskId).
  - apply deleteTask_changes_tasks.
Qed.

Lemma Forall_changed (Q : Task -> Prop) (st : AppState) (l : list Task) :
  TasksChange st l ->
  Forall Q (s_tasks st) ->
  (forall i c nid,
     trim (s_task st) <> [] ->
     (nid <> None -> s_reminderDate st <> None) ->
     Q (mkTask i (trim (s_task st)) c (s_priority st) (trim (s_category st))
               (s_reminderDate st) nid)) ->
  (forall t, Q t ->
     Q (mkTask (id t) (text t) (negb (completed t)) (priority t)
               (category t) (reminderDate t) (notificationId t))) ->
  Forall Q l.
Proof.
  intros Hch Hall Hnew Htog.
  destruct Hch as [|now nid Hne Hn|e nid Hne Hn|taskId|taskId].
  - exact Hall.
  - apply Forall_app. split; [exact Hall|].
    constructor; [|constructor]. now apply Hnew.
  - rewrite List.Forall_forall in *. intros t' Ht'.
    apply in_map_iff in Ht' as (t & <- & Ht).
    destruct (id t =? id e); [now apply Hnew|now apply Hall].
  - rewrite List.Forall_forall in *. intros t' Ht'.
    apply in_map_iff in Ht' as (t & <- & Ht).
    destruct (id t =? taskId); [apply Htog|]; now apply Hall.
  - rewrite List.Forall_forall in *. intros t Ht.
    apply filter_In in Ht as [Ht _]. now apply Hall.
Qed.

(** X23. If every stored task has a text that is not empty and has no
    white space around it, this is still so after any action of the
    screen, whatever the platform answers. *)
Theorem step_keeps_texts_tidy (a : Action) (st : AppState) :
  Forall tidy (s_tasks st) -> Forall tidy (s_tasks (step a st)).
Proof.
  intros H.
  apply (Forall_changed tidy st _ (step_changes_tasks a st) H).
  - intros i c nid Hne _. split; [exact Hne|]. apply trim_idempotent.
  - intros t Ht. exact Ht.
Qed.

(** X23, on the submission of " Call mom " over the stored collection. *)
Lemma step_keeps_texts_tidy_witness :
  Forall tidy (s_tasks (step (PressSubmit Samples.working) More.drafting)).
Proof.
  apply (step_keeps_texts_tidy (PressSubmit Samples.working) More.drafting).
  repeat constructor; discriminate.
Defined.

(** X24. If every stored task that has a notification id has a reminder
    date, this is still so after any action of the screen, whatever the
    platform answers. *)
Theorem step_keeps_notifications_linked (a : Action) (st : AppState) :
  Forall linked (s_tasks st) -> Forall linked (s_tasks (step a st)).
Proof.
  intros H.
  apply (Forall_changed linked st _ (step_changes_tasks a st) H).
  - intros i c nid _ Hn. exact Hn.
  - intros t Ht. exact Ht.
Qed.

(** X24, on the same submission. *)
Lemma step_keeps_notifications_linked_witness :
  Forall linked (s_tasks (step (PressSubmit Samples.working) More.drafting)).
Proof.
  apply (step_keeps_notifications_linked (PressSubmit Samples.working)
           More.drafting).
  constructor; [intros _; discriminate|].
  constructor; [intros H; now contradiction H|constructor].
Defined.

Lemma knownCategory_trim (c : jsstring) : knownCategory c -> trim c = c.
Proof.
  intros [->|H]; [reflexivity|].
  repeat (destruct H as [<-|H]; [reflexivity|]). destruct H.
Qed.

Lemma step_category (a : Action) (st : AppState) :
  s_category (step a st) = s_category st \/
  s_category (step a st) = [] \/
  (exists cat, a = PickCategory cat /\ s_category (step a st) = cat) \/
  (exists item, a = PressEdit item /\ s_category (step a st) = category item).
Proof.
  destruct a as [s|p|cat|date|f|s|P|taskId|item|P taskId|];
    try (now left).
  - right. right. left. eexists. split; reflexivity.
  - destruct date; now left.
  - unfold step, handle, run, submit.
    destruct (s_editingTask st) as [e|] eqn:He.
    + unfold updateTask. rewrite He.
      destruct (JsString.truthy (trim (s_task st))); simpl; [|now left].
      unfold try_catch, bind at 1.
      destruct (truthyId (notificationId e)) as [n|].
      * unfold cancel, bind at 1, emit, await. simpl.
        destruct (cancelScheduledNotificationAsync P n) as [[]|err]; simpl;
          [|now left].
        destruct (inFuture P (s_reminderDate st)); simpl.
        -- unfold bind at 1, bind at 1, schedule, bind at 1. simpl.
           destruct (scheduleNotificationAsync P _); simpl;
             [right; now left|now left].
        -- right. now left.
      * simpl. destruct (inFuture P (s_reminderDate st)); simpl.
        -- unfold bind at 1, bind at 1, schedule, bind at 1. simpl.
           destruct (scheduleNotificationAsync P _); simpl;
             [right; now left|now left].
        -- right. now left.
    + unfold addTask.
      destruct (JsString.truthy (trim (s_task st))); simpl; [|now left].
      destruct (inFuture P (s_reminderDate st)); simpl.
      * unfold try_catch, bind at 1, bind at 1, schedule, bind at 1. simpl.
        destruct (scheduleNotificationAsync P _); simpl;
          [right; now left|now left].
      * right. now left.
  - right. right. right. eexists. split; reflexivity.
  - unfold step, handle, run, deleteTask.
    destruct (truthyId _) as [n|]; simpl; [|now left].
    unfold bind at 1, cancel, bind at 1, emit, await. simpl.
    destruct (cancelScheduledNotificationAsync P n) as [[]|e]; now left.
  - right. now left.
Qed.

(** X25. If the category of the form and the categories of the stored
    tasks are empty or among Work, Personal, Shopping, Health and Other,
    this is still so after any action the screen offers (a category picked
    in the modal, the edit button of a stored task): the text input is the
    only free text of a task. *)
Theorem step_keeps_categories_known (a : Action) (st : AppState) :
  categoriesKnown st -> offered a st -> categoriesKnown (step a st).
Proof.
  intros [Hform Hall] Hoff. split.
  - destruct (step_category a st) as [->|[->|[(cat & -> & ->)|(item & -> & ->)]]].
    + exact Hform.
    + now left.
    + right. exact Hoff.
    + simpl in Hoff. rewrite List.Forall_forall in Hall. now apply Hall.
  - apply (Forall_changed (fun t => knownCategory (category t)) st _
             (step_changes_tasks a st) Hall).
    + intros i c nid _ _. simpl. now rewrite knownCategory_trim.
    + intros t Ht. exact Ht.
Qed.

(** X25, on the choice of "Health" in the modal. *)
Lemma step_keeps_categories_known_witness :
  categoriesKnown (step (PickCategory (js "Health")) More.drafting).
Proof.
  apply (step_keeps_categories_known (PickCategory (js "Health"))
           More.drafting).
  - split; [right; simpl; tauto|].
    repeat constructor; right; simpl; tauto.
  - simpl. tauto.
Defined.

(** ** Persistence: what the effects leave alone *)

Lemma truthy_nonempty (s : jsstring) : s <> [] -> JsString.truthy s = true.
Proof. destruct s; [congruence | reflexivity]. Qed.

(** X26. The save effect asks the storage once, under the key "tasks",
    to hold the serialized collection; it never fails and never changes
    the state: a write the storage refuses is only logged. *)
Theorem saveTasks_only_logs
  (setItem : jsstring -> jsstring -> Outcome unit) (st : AppState) :
  let r := run (saveTasks setItem) st in
  outcome r = Resolved tt /\ nextState r = st /\
  exists rest,
    trace r = SetItemRequested (js "tasks") (JSON_stringify (s_tasks st))
              :: rest /\
    match setItem (js "tasks") (JSON_stringify (s_tasks st)) with
    | Resolved _ => rest = []
    | Rejected e => rest = [console_error "Failed to save tasks" e]
    end.
Proof.
  unfold run, saveTasks, try_catch, bind, emit, await, outcome, nextState,
    trace.
  change STORAGE_KEY with (js "tasks").
  destruct (setItem (js "tasks") (JSON_stringify (s_tasks st))) as [[]|e];
    simpl; repeat split; eexists; split; reflexivity.
Qed.

(** X27. The load effect never fails and touches no cell but the
    collection. When the storage holds nothing under the key, or the empty
    text, nothing changes and nothing is logged. Whatever is thrown inside
    the [try] is caught, which leaves the state as it was and logs 'Failed
    to load tasks': a failed read, a stored text that is not JSON
    ([JSON.parse] throws), a stored value that is not an array or is an
    array holding [null] (the [map] throws). *)
Theorem loadTasks_frame
  (getItem : jsstring -> Outcome (option jsstring)) (st : AppState) :
  (forall h, loadTasks getItem = Some h ->
     outcome (h st) = Resolved tt /\
     nextState (h st) = setTasksTo (s_tasks (nextState (h st))) st /\
     (trace (h st) = [] \/
      exists e,
        h st = (Resolved tt, st, [console_error "Failed to load tasks" e]))) /\
  (getItem (js "tasks") = Resolved None \/
   getItem (js "tasks") = Resolved (Some []) ->
   exists h, loadTasks getItem = Some h /\ h st = (Resolved tt, st, [])) /\
  (forall e, getItem (js "tasks") = Rejected e ->
   exists h, loadTasks getItem = Some h /\
     h st = (Resolved tt, st, [console_error "Failed to load tasks" e])) /\
  (forall s, getItem (js "tasks") = Resolved (Some s) -> s <> [] ->
   JSON_parse s = None ->
   exists h, loadTasks getItem = Some h /\
     h st = (Resolved tt, st,
             [console_error "Failed to load tasks" "SyntaxError"])) /\
  (forall s v, getItem (js "tasks") = Resolved (Some s) -> s <> [] ->
   JSON_parse s = Some (Exact v) ->
   (forall l, v = JArray l -> In JNull l) ->
   exists h, loadTasks getItem = Some h /\
     h st = (Resolved tt, st,
             [console_error "Failed to load tasks" "TypeError"])).
Proof.
  unfold loadTasks. change STORAGE_KEY with (js "tasks").
  split; [|split; [|split; [|split]]].
  - intros h.
    destruct (getItem (js "tasks")) as [[s|]|e].
    + destruct (JsString.truthy s) eqn:Es.
      * destruct (tasksWithDates s) as [[ts|e]|]; [| |discriminate].
        -- intros [= <-]. split; [reflexivity|]. split; [reflexivity|].
           now left.
        -- intros [= <-]. split; [reflexivity|]. split; [now destruct st|].
           right. now exists e.
      * intros [= <-]. split; [reflexivity|]. split; [now destruct st|].
        now left.
    + intros [= <-]. split; [reflexivity|]. split; [now destruct st|].
      now left.
    + intros [= <-]. split; [reflexivity|]. split; [now destruct st|].
      right. now exists e.
  - intros [-> | ->]; eexists; split; reflexivity.
  - intros e ->. eexists; split; reflexivity.
  - intros s -> Hs Hparse.
    apply truthy_nonempty in Hs. rewrite Hs.
    unfold tasksWithDates. rewrite Hparse.
    eexists; split; reflexivity.
  - intros s v -> Hs Hparse Hv.
    apply truthy_nonempty in Hs. rewrite Hs.
    unfold tasksWithDates. rewrite Hparse.
    assert (Hmap : mapWithDates v = Some (Rejected "TypeError")).
    { destruct v as [|b|n|x|l|l]; try reflexivity.
      unfold mapWithDates.
      assert (Hnull : existsb isNull l = true).
      { apply existsb_exists. exists JNull. split; [now apply Hv|reflexivity]. }
      now rewrite Hnull. }
    rewrite Hmap. eexists; split; reflexivity.
Qed.

(** X27, on a storage that holds a text that is not JSON. *)
Lemma loadTasks_frame_witness :
  exists h,
    loadTasks (fun _ => Resolved (Some More.notJSON)) = Some h /\
    h Samples.stored =
      (Resolved tt, Samples.stored,
       [console_error "Failed to load tasks" "SyntaxError"]).
Proof.
  destruct (loadTasks_frame (fun _ => Resolved (Some More.notJSON))
              Samples.stored) as (_ & _ & _ & H & _).
  apply (H More.notJSON); [reflexivity | discriminate | reflexivity].
Defined.

(** X28. Two collections (of tasks the program can hold) that are saved
    as the same text are the same collection: the stored text determines
    every task and every field. *)
Theorem JSON_stringify_injective (tasks1 tasks2 : list Task) :
  Forall persistable tasks1 -> Forall persistable tasks2 ->
  JSON_stringify tasks1 = JSON_stringify tasks2 -> tasks1 = tasks2.
Proof.
  intros H1 H2 E.
  apply tasksWithDates_stringify in H1, H2.
  rewrite E in H1. congruence.
Qed.

(** X28, on two collections that differ. *)
Lemma JSON_stringify_injective_witness :
  JSON_stringify [Samples.plain] <> JSON_stringify [Samples.soon].
Proof.
  intros E.
  assert (H : [Samples.plain] = [Samples.soon]).
  { apply (JSON_stringify_injective [Samples.plain] [Samples.soon]).
    - repeat constructor; simpl; lia.
    - repeat constructor; simpl; unfold maxTime; lia.
    - exact E. }
  discriminate H.
Defined.

(** ** Themes *)

Lemma lightTheme_darkTheme : lightTheme <> darkTheme.
Proof. discriminate. Qed.

(** X29. [ThemeProvider] of the task screen: after [toggleTheme] the
    theme of the next render is the other one; the [toggleTheme] of that
    next render brings the first theme back; and calling the [toggleTheme]
    of one render twice has the effect of calling it once, since it sets
    the cell to the negation of the value of its own render. *)
Theorem toggleTheme_renders (isDark current : bool) :
  themeOf (toggleTheme isDark isDark) <> themeOf isDark /\
  toggleTheme (toggleTheme isDark isDark) (toggleTheme isDark isDark)
    = isDark /\
  toggleTheme isDark (toggleTheme isDark current) = toggleTheme isDark current.
Proof.
  unfold toggleTheme, themeOf. repeat split.
  - destruct isDark; simpl; [|apply not_eq_sym]; apply lightTheme_darkTheme.
  - apply negb_involutive.
Qed.

(** The colour of a priority badge tells the priority and does not depend
    on the theme: in either theme the three priorities have three different
    colours, the same in both. *)
Lemma getPriorityColor_distinct (isDark : bool) (p q : Priority) :
  (getPriorityColor (themeOf isDark) p = getPriorityColor (themeOf isDark) q
   -> p = q) /\
  getPriorityColor darkTheme p = getPriorityColor lightTheme p.
Proof.
  split.
  - destruct isDark, p, q; simpl; intros H;
      (reflexivity || discriminate H).
  - destruct p; reflexivity.
Qed.

(** X30. [context/ThemeContext.tsx]: [useTheme] throws exactly when no
    [ThemeProvider] is above; under a provider it returns the dark theme
    exactly when the cell reads dark, and the value its [toggleTheme] sets
    makes the provider of the next render give the other theme. *)
Theorem useTheme_within_provider
  (context : option ThemeContext.ThemeContextType) :
  ((exists e, ThemeContext.useTheme context = inr e) <-> context = None) /\
  (forall dark : bool, exists c,
    (ThemeContext.useTheme (ThemeContext.ThemeProvider dark) = inl c) /\
    (ThemeContext.isDark c = dark) /\
    (ThemeContext.theme c = ThemeContext.darkTheme <-> dark = true) /\
    (exists next,
       (ThemeContext.useTheme
          (ThemeContext.ThemeProvider (ThemeContext.toggleTheme c))
        = inl next) /\
       (ThemeContext.theme next <> ThemeContext.theme c))).
Proof.
  split.
  - destruct context as [c|]; simpl.
    + split; [intros [e H]; discriminate|discriminate].
    + split; [reflexivity|]. intros _. eexists. reflexivity.
  - intros dark. eexists. split; [reflexivity|]. simpl.
    split; [reflexivity|]. split.
    + destruct dark; split; (reflexivity || discriminate).
    + eexists. split; [reflexivity|]. destruct dark; discriminate.
Qed.
